(** * Session registry of a pomelo frontend server

    Shallow embedding of [SessionService], [Session] and [FrontendSession]
    (the session-identity layer of the server) and the properties of its
    specification.

    Modelling choices.
    - JavaScript objects have identity.  A [Session] is shared between the
      [sessions] table and the buckets of [uidMap], so sessions live in a
      store ([heap]) and both tables hold references ([loc]).  The
      [settings] of a session, the values nested in it and the settings of
      a [FrontendSession] are plain objects in a second store ([objects]).
    - Arguments have the types the source declares: [sid] and [uid] are
      numbers, modelled as integers ([Z]); [null] is [None] where a field
      is a nullable number; the [cb] of [bind] and [unbind] is a function.
      Truthiness of a uid is as in JavaScript: [null] and [0] are falsy.
    - Table keys are the numbers the tables are indexed with; indexing
      with [null] finds nothing.
    - A reference of a table always refers to an object; a reference that
      is not in the store (which no operation produces) reads as absent.
    - The event emitter, the socket and the scheduler are collaborators of
      this code.  What the code asks of them ([emit], [process.nextTick],
      a direct call of a callback) is appended to [log] in program order;
      listeners are not run by the model.
    - [logger.debug] calls are left out. *)

From stdpp Require Import gmap strings list fin_maps.

#[local] Set Warnings "-clear-no-such-hyp".

Abbreviation loc := nat (only parsing).
Abbreviation Socket := nat (only parsing).
Abbreviation Callback := nat (only parsing).

(** ** Values and plain objects *)

Inductive Value :=
  | VUndefined
  | VNull
  | VBool (b : bool)
  | VNum (n : Z)
  | VStr (s : string)
  | VObj (l : loc)          (* reference to a plain object of [objects] *)
  | VFun (f : Callback)     (* a function *)
  | VSession (l : loc)      (* reference to a Session of [heap] *)
  | VSocket (sock : Socket) (* reference to a socket *)
  | VService.               (* reference to the SessionService *)

#[global] Instance Value_eq_dec : EqDecision Value.
Proof. solve_decision. Defined.

(** A plain object: its own enumerable properties. *)
Abbreviation Obj := (gmap string Value) (only parsing).

(** [o[f]]: reading a missing property gives [undefined]. *)
Definition prop (o : Obj) (f : string) : Value := default VUndefined (o !! f).

(** [typeof v === 'function'] *)
Definition is_function (v : Value) : bool :=
  match v with VFun _ => true | _ => false end.

Definition ST_INITED : Z := 0.
Definition ST_CLOSED : Z := 1.

Definition FRONTEND_SESSION_FIELDS : list string :=
  ["id"; "frontendId"; "uid"; "__sessionService__"].
Definition EXPORTED_SESSION_FIELDS : list string :=
  ["id"; "frontendId"; "uid"; "settings"].

(** ** The classes' fields *)

Module Session.
Record t := mk {
  id : Z;
  frontendId : string;
  uid : option Z;          (* [None] is [null] *)
  settings : loc;          (* the settings object, in [objects] *)
  __socket__ : Socket;
  __state__ : Z
}.
Definition set_uid (u : option Z) (s : t) : t :=
  mk (id s) (frontendId s) u (settings s) (__socket__ s) (__state__ s).
Definition set_state (x : Z) (s : t) : t :=
  mk (id s) (frontendId s) (uid s) (settings s) (__socket__ s) x.
End Session.
Abbreviation Session := Session.t.

Module FrontendSession.
Record t := mk {
  id : Z;
  frontendId : string;
  uid : option Z;
  settings : loc;          (* its own settings object, in [objects] *)
  __session__ : loc
}.
End FrontendSession.
Abbreviation FrontendSession := FrontendSession.t.

#[global] Instance Session_eq_dec : EqDecision Session.
Proof. solve_decision. Defined.
#[global] Instance FrontendSession_eq_dec : EqDecision FrontendSession.
Proof. solve_decision. Defined.

(** ** Errors, notifications and the log of effects *)

(** The four [new Error(...)] messages, by kind, with the value that is
    concatenated into the message. *)
Inductive Error :=
  | SessionNotFound (sid : Z)             (* 'session does not exist, sid: ' *)
  | AlreadyBound (bound : option Z)       (* 'session has already bound with ' *)
  | NotBound (bound : option Z)           (* 'session has not bind with ' *)
  | SingleSessionViolation (uid : Z).     (* 'singleSession is enabled, ...' *)

Inductive Notification :=
  | NBind (uid : Z)                                (* emit('bind', uid) *)
  | NUnbind (uid : Z)                              (* emit('unbind', uid) *)
  | NClosed (fs : FrontendSession) (reason : Value). (* emit('closed', fs, reason) *)

(** What [process.nextTick] is given to run. *)
Inductive Task :=
  | TCall (cb : Callback) (err : option Error)          (* cb(err) or cb() *)
  | TInvokeCallback (cb : Value) (err : option Error)   (* invokeCallback(cb, err) *)
  | TDisconnect (sock : Socket).                        (* socket.disconnect() *)

Inductive Event :=
  | SessionEmit (session : loc) (n : Notification)
  | SocketEmit (sock : Socket) (name : string) (arg : Value)
  | SocketDisconnect (sock : Socket)
  | Invoke (cb : Callback) (err : option Error)  (* the callback runs now *)
  | NextTick (t : Task).                         (* the task is deferred *)

#[global] Instance Error_eq_dec : EqDecision Error.
Proof. solve_decision. Defined.
#[global] Instance Notification_eq_dec : EqDecision Notification.
Proof. solve_decision. Defined.
#[global] Instance Task_eq_dec : EqDecision Task.
Proof. solve_decision. Defined.
#[global] Instance Event_eq_dec : EqDecision Event.
Proof. solve_decision. Defined.

(** ** The state: the service, the two stores and the log *)

Record State := mkState {
  singleSession : bool;
  sessions : gmap Z loc;
  uidMap : gmap Z (list loc);
  heap : gmap loc Session;
  objects : gmap loc (gmap string Value);
  log : list Event
}.

Definition set_sessions (f : gmap Z loc → gmap Z loc) (st : State) : State :=
  mkState (singleSession st) (f (sessions st)) (uidMap st) (heap st)
          (objects st) (log st).
Definition set_uidMap (f : gmap Z (list loc) → gmap Z (list loc))
    (st : State) : State :=
  mkState (singleSession st) (sessions st) (f (uidMap st)) (heap st)
          (objects st) (log st).
Definition set_heap (f : gmap loc Session → gmap loc Session)
    (st : State) : State :=
  mkState (singleSession st) (sessions st) (uidMap st) (f (heap st))
          (objects st) (log st).
Definition set_objects
    (f : gmap loc (gmap string Value) → gmap loc (gmap string Value))
    (st : State) : State :=
  mkState (singleSession st) (sessions st) (uidMap st) (heap st)
          (f (objects st)) (log st).
Definition record (e : Event) (st : State) : State :=
  mkState (singleSession st) (sessions st) (uidMap st) (heap st)
          (objects st) (log st ++ [e]).

(** [new SessionService(opts)] *)
Definition SessionService_new (single : bool) : State :=
  mkState single ∅ ∅ ∅ ∅ [].

(** [process.nextTick(task)] *)
Definition nextTick (t : Task) : State → State := record (NextTick t).


(** [invokeCallback(cb, err)]: calls [cb] only when it is a function. *)
Definition invokeCallback (cb : Value) (err : option Error)
    (st : State) : State :=
  match cb with
  | VFun f => record (Invoke f err) st
  | _ => st
  end.

(** JavaScript truthiness of a uid: [null] and [0] are falsy. *)
Definition truthy (u : option Z) : bool :=
  match u with
  | Some n => negb (n =? 0)%Z
  | None => false
  end.

(** [this.sessions[sid]], with the object it refers to. *)
Definition lookup_session (st : State) (sid : Z) : option (loc * Session) :=
  l ← sessions st !! sid; s ← heap st !! l; Some (l, s).

(** [sessions[i].id === x] for the session at reference [l]. *)
Definition has_id (st : State) (x : Z) (l : loc) : bool :=
  match heap st !! l with
  | Some s => bool_decide (Session.id s = x)
  | None => false
  end.

(** The loop [for (i...) if (p sessions[i]) { sessions.splice(i, 1); break; }]. *)
Fixpoint splice_first (p : loc → bool) (b : list loc) : list loc :=
  match b with
  | [] => []
  | x :: r => if p x then r else x :: splice_first p r
  end.

(** ** Session *)

(** [Session.bind(uid)]: [this.uid = uid; this.emit('bind', uid)] *)
Definition Session_bind (this : loc) (uid : Z) (st : State) : State :=
  record (SessionEmit this (NBind uid))
         (set_heap (alter (Session.set_uid (Some uid)) this) st).

(** [Session.unbind(uid)]: [this.uid = null; this.emit('unbind', uid)] *)
Definition Session_unbind (this : loc) (uid : Z) (st : State) : State :=
  record (SessionEmit this (NUnbind uid))
         (set_heap (alter (Session.set_uid None) this) st).

(** The two documented forms of the first argument of [Session.set]:
    a property name, or an object whose properties are all merged in. *)
Inductive Key :=
  | KName (k : string)
  | KMap (l : loc).

(** [Session.set(key, value)].  The loop [for (i in key) settings[i] = key[i]]
    overwrites the entries of [settings] with those of [key]. *)
Definition Session_set (key : Key) (value : Value) (this : Session)
    (st : State) : State :=
  let target := Session.settings this in
  match key with
  | KMap l =>
      let src := default ∅ (objects st !! l) in
      set_objects (alter (λ o, src ∪ o) target) st
  | KName k => set_objects (alter (insert k value) target) st
  end.

(** [Session.get(key)]: [this.settings[key]] *)
Definition Session_get (key : string) (this : Session) (st : State) : Value :=
  prop (default ∅ (objects st !! Session.settings this)) key.

(** [dclone(src)]: a new object with the properties of [src], each value
    copied as it is ([res[f] = src[f]]). *)
Definition dclone (src : loc) (st : State) : loc * State :=
  let res := fresh (dom (objects st)) in
  (res, set_objects (insert res (default ∅ (objects st !! src))) st).

(** [new FrontendSession(session)]: the four fields of
    [FRONTEND_SESSION_FIELDS] are copied, [settings] is [dclone]d. *)
Definition FrontendSession_new (l : loc) (session : Session) (st : State)
    : FrontendSession * State :=
  let '(copy, st') := dclone (Session.settings session) st in
  (FrontendSession.mk (Session.id session) (Session.frontendId session)
                      (Session.uid session) copy l, st').

(** [Session.toFrontendSession()] *)
Definition Session_toFrontendSession (this : loc) (st : State)
    : option (FrontendSession * State) :=
  session ← heap st !! this; Some (FrontendSession_new this session st).

(** ** SessionService *)

(** [create(sid, frontendId, socket)]: [new Session(...)] allocates the
    session and its empty [settings]; the session is registered under its
    id. *)
Definition SessionService_create (sid : Z) (frontendId : string)
    (socket : Socket) (st : State) : loc * State :=
  let o := fresh (dom (objects st)) in
  let l := fresh (dom (heap st)) in
  let session := Session.mk sid frontendId None o socket ST_INITED in
  (l, set_sessions (insert (Session.id session) l)
        (set_heap (insert l session) (set_objects (insert o ∅) st))).

Definition SessionService_bind (sid uid : Z) (cb : Callback)
    (st : State) : State :=
  match lookup_session st sid with
  | None => nextTick (TCall cb (Some (SessionNotFound sid))) st
  | Some (l, session) =>
      if truthy (Session.uid session) then
        if bool_decide (Session.uid session = Some uid) then
          (* already bound with the same uid: [cb(); return;] *)
          record (Invoke cb None) st
        else
          nextTick (TCall cb (Some (AlreadyBound (Session.uid session)))) st
      else
        let found := uidMap st !! uid in
        if singleSession st && bool_decide (is_Some found) then
          nextTick (TCall cb (Some (SingleSessionViolation uid))) st
        else
          (* [if (!sessions) sessions = this.uidMap[uid] = []] *)
          let bucket := default [] found in
          if existsb (has_id st (Session.id session)) bucket then
            nextTick (TCall cb None) st
          else
            nextTick (TCall cb None)
              (Session_bind l uid
                 (set_uidMap (insert uid (bucket ++ [l])) st))
  end.

Definition SessionService_unbind (sid uid : Z) (cb : Callback)
    (st : State) : State :=
  match lookup_session st sid with
  | None => nextTick (TCall cb (Some (SessionNotFound sid))) st
  | Some (l, session) =>
      if negb (truthy (Session.uid session))
         || negb (bool_decide (Session.uid session = Some uid)) then
        nextTick (TCall cb (Some (NotBound (Session.uid session)))) st
      else
        let st1 :=
          match uidMap st !! uid with
          | Some bucket =>
              let bucket' := splice_first (has_id st sid) bucket in
              if bool_decide (bucket' = []) then set_uidMap (delete uid) st
              else set_uidMap (insert uid bucket') st
          | None => st
          end in
        nextTick (TCall cb None) (Session_unbind l uid st1)
  end.

(** [get(sid)] and [getByUid(uid)] *)
Definition SessionService_get (sid : Z) (st : State) : option loc :=
  sessions st !! sid.
Definition SessionService_getByUid (uid : Z) (st : State)
    : option (list loc) :=
  uidMap st !! uid.

(** [remove(sid)].  [this.uidMap[uid]] with [uid] null finds nothing. *)
Definition SessionService_remove (sid : Z) (st : State) : State :=
  match lookup_session st sid with
  | None => st
  | Some (l, session) =>
      let st1 := set_sessions (delete (Session.id session)) st in
      match Session.uid session with
      | None => st1
      | Some uid =>
          match uidMap st !! uid with
          | None => st1
          | Some bucket =>
              if existsb (has_id st sid) bucket then
                let bucket' := splice_first (has_id st sid) bucket in
                if bool_decide (bucket' = []) then set_uidMap (delete uid) st1
                else set_uidMap (insert uid bucket') st1
              else st1
          end
      end
  end.

(** [import(sid, key, value, cb)] *)
Definition SessionService_import (sid : Z) (key : Key) (value : Value)
    (cb : Value) (st : State) : State :=
  match lookup_session st sid with
  | None => invokeCallback cb (Some (SessionNotFound sid)) st
  | Some (l, session) => invokeCallback cb None (Session_set key value session st)
  end.

(** [importAll(sid, settings, cb)]: [session.set(f, settings[f])] for
    every property [f] of the object [settings]. *)
Definition SessionService_importAll (sid : Z) (settings : loc) (cb : Value)
    (st : State) : State :=
  match lookup_session st sid with
  | None => invokeCallback cb (Some (SessionNotFound sid)) st
  | Some (l, session) =>
      let src := default ∅ (objects st !! settings) in
      invokeCallback cb None
        (set_objects (alter (λ o, src ∪ o) (Session.settings session)) st)
  end.

(** [getSessionsCount()]: [size(this.sessions)]; every entry of the table
    is a session object, hence counted. *)
Definition SessionService_getSessionsCount (st : State) : nat :=
  size (sessions st).

(** [Session.closed(reason)] *)
Definition Session_closed (this : loc) (reason : Value) (st : State) : State :=
  match heap st !! this with
  | None => st
  | Some session =>
      if bool_decide (Session.__state__ session = ST_CLOSED) then st
      else
        let closed := Session.set_state ST_CLOSED session in
        let st1 := set_heap (insert this closed) st in
        let st2 := SessionService_remove (Session.id closed) st1 in
        let '(fs, st3) := FrontendSession_new this closed st2 in
        let st4 := record (SessionEmit this (NClosed fs reason)) st3 in
        let st5 := record (SocketEmit (Session.__socket__ closed) "closing" reason) st4 in
        nextTick (TDisconnect (Session.__socket__ closed)) st5
  end.

(** A call either returns or throws a [TypeError]; both leave a state. *)
Inductive Result :=
  | Returned (st : State)
  | Threw (st : State).

Definition state_of (r : Result) : State :=
  match r with Returned st | Threw st => st end.

(** [sids.forEach((sid) => { this.sessions[sid].closed(reason); })]:
    [this.sessions[sid]] may be [undefined], and then the call throws. *)
Fixpoint close_each (sids : list Z) (reason : Value) (st : State) : Result :=
  match sids with
  | [] => Returned st
  | sid :: rest =>
      match sessions st !! sid with
      | None => Threw st
      | Some l => close_each rest reason (Session_closed l reason st)
      end
  end.

(** [sessions.forEach((session) => { sids.push(session.id); })] *)
Fixpoint ids_of (st : State) (bucket : list loc) : list Z :=
  match bucket with
  | [] => []
  | l :: rest =>
      match heap st !! l with
      | Some session => Session.id session :: ids_of st rest
      | None => ids_of st rest
      end
  end.

(** [kick(uid, reason, cb)]; the old form [kick(uid, cb)] passes the
    callback as [reason]. *)
Definition SessionService_kick (uid : Z) (reason cb : Value)
    (st : State) : Result :=
  let '(cb, reason) :=
    if is_function reason then (reason, VStr "kick") else (cb, reason) in
  match SessionService_getByUid uid st with
  | Some bucket =>
      match close_each (ids_of st bucket) reason st with
      | Returned st' => Returned (nextTick (TInvokeCallback cb None) st')
      | Threw st' => Threw st'
      end
  | None => Returned (nextTick (TInvokeCallback cb None) st)
  end.

(** [kickBySessionId(sid, reason, cb)] *)
Definition SessionService_kickBySessionId (sid : Z) (reason cb : Value)
    (st : State) : State :=
  let '(cb, reason) :=
    if is_function reason then (reason, VStr "kick") else (cb, reason) in
  match SessionService_get sid st with
  | Some l => nextTick (TInvokeCallback cb None) (Session_closed l reason st)
  | None => nextTick (TInvokeCallback cb None) st
  end.

(** ** Objects as property tables

    [clone], [FrontendSession.export] and [Session.remove] address fields
    by name, so they are modelled on the table of own properties of the
    object.  (The fields the event emitter keeps on the object are its
    own business and are not listed.) *)

Definition uid_value (u : option Z) : Value :=
  match u with Some n => VNum n | None => VNull end.

Definition Session_props (s : Session) : Obj :=
  <["id" := VNum (Session.id s)]>
  (<["frontendId" := VStr (Session.frontendId s)]>
  (<["uid" := uid_value (Session.uid s)]>
  (<["settings" := VObj (Session.settings s)]>
  (<["__socket__" := VSocket (Session.__socket__ s)]>
  (<["__sessionService__" := VService]>
  (<["__state__" := VNum (Session.__state__ s)]> ∅)))))).

Definition FrontendSession_props (fs : FrontendSession) : Obj :=
  <["id" := VNum (FrontendSession.id fs)]>
  (<["frontendId" := VStr (FrontendSession.frontendId fs)]>
  (<["uid" := uid_value (FrontendSession.uid fs)]>
  (<["__sessionService__" := VService]>
  (<["settings" := VObj (FrontendSession.settings fs)]>
  (<["__session__" := VSession (FrontendSession.__session__ fs)]> ∅))))).

(** [clone(src, dest, includes)]: [dest[f] = src[f]] for every [f]. *)
Definition clone (src dest : Obj) (includes : list string) : Obj :=
  foldl (λ d f, <[f := prop src f]> d) dest includes.

(** [FrontendSession.export()] *)
Definition FrontendSession_export (this : FrontendSession) : Obj :=
  clone (FrontendSession_props this) ∅ EXPORTED_SESSION_FIELDS.

(** [FrontendSession.set(key, value)] and [get(key)] work on its own
    settings object. *)
Definition FrontendSession_set (key : string) (value : Value)
    (this : FrontendSession) (st : State) : State :=
  set_objects (alter (insert key value) (FrontendSession.settings this)) st.
Definition FrontendSession_get (key : string) (this : FrontendSession)
    (st : State) : Value :=
  prop (default ∅ (objects st !! FrontendSession.settings this)) key.

(** [Session.remove(key)]: [delete this[key]] *)
Definition Session_remove (key : string) (this : Obj) : Obj :=
  delete key this.

(** [Session.get(key)] on the property table: [this.settings[key]].
    Reading a property of [undefined] throws ([None]); the field holds
    the settings object until it is deleted. *)
Definition Session_get_props (key : string) (this : Obj) (st : State)
    : option Value :=
  match prop this "settings" with
  | VObj l => Some (prop (default ∅ (objects st !! l)) key)
  | _ => None
  end.

(** An object literal: a new plain object with the given properties. *)
Definition object_new (o : Obj) (st : State) : loc * State :=
  let l := fresh (dom (objects st)) in
  (l, set_objects (insert l o) st).

(** [o[k] = v] on a plain object of the store, as any holder of the
    reference can do. *)
Definition object_set (l : loc) (k : string) (v : Value) (st : State) : State :=
  set_objects (alter (insert k v) l) st.

(** ** Messages, addresses and iteration *)

(** What a call asks of a socket. *)
Inductive SocketCall :=
  | Send (sock : Socket) (msg : Value)         (* socket.send(msg) *)
  | SendBatch (sock : Socket) (msgs : Value).  (* socket.sendBatch(msgs) *)

#[global] Instance SocketCall_eq_dec : EqDecision SocketCall.
Proof. solve_decision. Defined.

(** [Session.send(msg)] and [Session.sendBatch(msgs)] *)
Definition Session_send (msg : Value) (this : Session) : list SocketCall :=
  [Send (Session.__socket__ this) msg].
Definition Session_sendBatch (msgs : Value) (this : Session)
    : list SocketCall :=
  [SendBatch (Session.__socket__ this) msgs].

(** [send(service, session, msg)]: [session.send(msg); return true;] *)
Definition send (session : Session) (msg : Value) : bool * list SocketCall :=
  (true, Session_send msg session).

(** [sendMessage(sid, msg)]: the value returned and the calls made. *)
Definition SessionService_sendMessage (sid : Z) (msg : Value) (st : State)
    : Value * list SocketCall :=
  match lookup_session st sid with
  | None => (VBool false, [])
  | Some (_, session) => let '(r, calls) := send session msg in (VBool r, calls)
  end.

(** [sendMessageByUid(uid, msg)]: without a bucket it returns [false];
    after the loop over the bucket it returns nothing. *)
Definition SessionService_sendMessageByUid (uid : Z) (msg : Value)
    (st : State) : Value * list SocketCall :=
  match uidMap st !! uid with
  | None => (VBool false, [])
  | Some bucket =>
      (VUndefined,
       flat_map (λ l, match heap st !! l with
                      | Some session => (send session msg).2
                      | None => []
                      end) bucket)
  end.

(** [getClientAddressBySessionId(sid)]; [remoteAddress] is the property of
    that name of a socket. *)
Definition SessionService_getClientAddressBySessionId
    (remoteAddress : Socket → Value) (sid : Z) (st : State) : Value :=
  match lookup_session st sid with
  | Some (_, session) => remoteAddress (Session.__socket__ session)
  | None => VNull
  end.

(** [forEachSession(cb)]: the sessions [cb] is called with, in order.
    [for (const sid in this.sessions)] goes through the keys of the table
    in the order [keys]; the registry is as the loop finds it at each turn,
    so the list is that of a [cb] that leaves the registry alone. *)
Definition SessionService_forEachSession (keys : list Z) (st : State)
    : list loc :=
  flat_map (λ sid, match sessions st !! sid with
                   | Some session => [session]
                   | None => []
                   end) keys.

(** [forEachBindedSession(cb)], likewise, over the keys of [uidMap]. *)
Definition SessionService_forEachBindedSession (keys : list Z) (st : State)
    : list loc :=
  flat_map (λ uid, default [] (uidMap st !! uid)) keys.

(** [keys] lists the keys of a table as [for ... in] does: each once. *)
Definition enumerates {A} (keys : list Z) (m : gmap Z A) : Prop :=
  NoDup keys ∧ ∀ k, k ∈ keys ↔ is_Some (m !! k).

(** ** FrontendSession, the forwarders *)

(** [FrontendSession.push(key, cb)] *)
Definition FrontendSession_push (key : string) (cb : Value)
    (this : FrontendSession) (st : State) : State :=
  SessionService_import (FrontendSession.id this) (KName key)
    (FrontendSession_get key this st) cb st.

(** [FrontendSession.pushAll(cb)] *)
Definition FrontendSession_pushAll (cb : Value) (this : FrontendSession)
    (st : State) : State :=
  SessionService_importAll (FrontendSession.id this)
    (FrontendSession.settings this) cb st.


(** [FrontendSession.unbind(uid, cb)], likewise. *)
Definition FrontendSession_unbind (w : Callback) (uid : Z)
    (this : FrontendSession) (st : State) : State :=
  SessionService_unbind (FrontendSession.id this) uid w st.

Definition FrontendSession_set_uid (u : option Z) (fs : FrontendSession)
    : FrontendSession :=
  FrontendSession.mk (FrontendSession.id fs) (FrontendSession.frontendId fs)
    u (FrontendSession.settings fs) (FrontendSession.__session__ fs).


(** The function handed over by [unbind]:
    [(err) => { if (!err) this.uid = null; invokeCallback(cb, err); }] *)
Definition FrontendSession_unbind_callback (cb : Value)
    (err : option Error) (this : FrontendSession) (st : State)
    : FrontendSession * State :=
  (match err with
   | None => FrontendSession_set_uid None this
   | Some _ => this
   end, invokeCallback cb err st).

(** The argument a call of the service hands to the function [w]: that of
    the last event of the log, if it calls [w] or schedules a call of it. *)
Definition answer_to (w : Callback) (st : State) : option (option Error) :=
  match last (log st) with
  | Some (Invoke w' err) | Some (NextTick (TCall w' err)) =>
      if decide (w' = w) then Some err else None
  | _ => None
  end.

(** * The vocabulary of the properties *)

(** ** The public operations as a transition system *)

Inductive Op :=
  | Create (sid : Z) (frontendId : string) (socket : Socket)
  | Bind (sid uid : Z) (cb : Callback)
  | Unbind (sid uid : Z) (cb : Callback)
  | Remove (sid : Z)
  | Import (sid : Z) (key : Key) (value cb : Value)
  | ImportAll (sid : Z) (settings : loc) (cb : Value)
  | Kick (uid : Z) (reason cb : Value)
  | KickBySessionId (sid : Z) (reason cb : Value)
  | Closed (session : loc) (reason : Value).

Definition exec (op : Op) (st : State) : State :=
  match op with
  | Create sid frontendId socket =>
      (SessionService_create sid frontendId socket st).2
  | Bind sid uid cb => SessionService_bind sid uid cb st
  | Unbind sid uid cb => SessionService_unbind sid uid cb st
  | Remove sid => SessionService_remove sid st
  | Import sid key value cb => SessionService_import sid key value cb st
  | ImportAll sid settings cb => SessionService_importAll sid settings cb st
  | Kick uid reason cb => state_of (SessionService_kick uid reason cb st)
  | KickBySessionId sid reason cb =>
      SessionService_kickBySessionId sid reason cb st
  | Closed session reason => Session_closed session reason st
  end.


(** States reached from a new service by operations that each satisfy
    [ok] in the state they are called in. *)
Inductive reachable (ok : State → Op → Prop) : State → Prop :=
  | reachable_new single : reachable ok (SessionService_new single)
  | reachable_exec st op :
      reachable ok st → ok st op → reachable ok (exec op st).

(** ** Observations on the log and the store *)




(** An event that calls a callback, or schedules the call of one. *)
Definition is_callback (e : Event) : bool :=
  match e with
  | Invoke _ _ | NextTick (TCall _ _) | NextTick (TInvokeCallback _ _) => true
  | SessionEmit _ _ | SocketEmit _ _ _ | SocketDisconnect _
  | NextTick (TDisconnect _) => false
  end.

(** Events among which no callback is called or scheduled. *)
Definition quiet (evs : list Event) : Prop :=
  ∀ e, e ∈ evs → is_callback e = false.

(** The session at [l] is in state CLOSED. *)
Definition closed_at (st : State) (l : loc) : Prop :=
  ∃ s, heap st !! l = Some s ∧ Session.__state__ s = ST_CLOSED.

(** Nothing but the log differs. *)
Definition unchanged (st st' : State) : Prop :=
  singleSession st' = singleSession st
  ∧ sessions st' = sessions st
  ∧ uidMap st' = uidMap st
  ∧ heap st' = heap st
  ∧ objects st' = objects st.

(** [cb] is called with [err], in the call or at the next tick, and
    nothing else is logged. *)
Definition calls_back (cb : Callback) (err : option Error)
    (st st' : State) : Prop :=
  log st' = log st ++ [Invoke cb err]
  ∨ log st' = log st ++ [NextTick (TCall cb err)].

Definition fails_with (cb : Callback) (err : Error) (st st' : State) : Prop :=
  unchanged st st' ∧ calls_back cb (Some err) st st'.

Definition noop_success (cb : Callback) (st st' : State) : Prop :=
  unchanged st st' ∧ calls_back cb None st st'.

(** The session at [l] is appended to the bucket of [uid], its [uid] is
    set, [bind] is emitted and [cb] is called with no error. *)
Definition binds (l : loc) (uid : Z) (cb : Callback) (st st' : State) : Prop :=
  singleSession st' = singleSession st
  ∧ sessions st' = sessions st
  ∧ objects st' = objects st
  ∧ uidMap st' = <[uid := default [] (uidMap st !! uid) ++ [l]]> (uidMap st)
  ∧ heap st' = alter (Session.set_uid (Some uid)) l (heap st)
  ∧ ∃ call, (call = Invoke cb None ∨ call = NextTick (TCall cb None))
            ∧ log st' = log st ++ [SessionEmit l (NBind uid); call].

(** ** The claims about bind and remove, as predicates *)

(** The cases of [bind(sid, uid, cb)] in their order.  With [guard] off
    these are the cases of the claim; with [guard] on, the bucket is
    searched for a session with the same id before anything is appended. *)
Definition bind_outcome (guard : bool) (st : State) (sid uid : Z)
    (cb : Callback) : Prop :=
  let st' := SessionService_bind sid uid cb st in
  match lookup_session st sid with
  | None => fails_with cb (SessionNotFound sid) st st'
  | Some (l, s) =>
      match Session.uid s with
      | Some u =>
          if decide (u = uid) then noop_success cb st st'
          else fails_with cb (AlreadyBound (Some u)) st st'
      | None =>
          if singleSession st && bool_decide (is_Some (uidMap st !! uid))
          then fails_with cb (SingleSessionViolation uid) st st'
          else if guard && existsb (has_id st (Session.id s))
                             (default [] (uidMap st !! uid))
          then noop_success cb st st'
          else binds l uid cb st st'
      end
  end.

(** The claim about [remove(key)] as it is stated: the property [key] of
    the session object is gone, and [get] still reads the settings. *)
Definition remove_keeps_settings (s : Session) (key : string)
    (st : State) : Prop :=
  let this' := Session_remove key (Session_props s) in
  this' !! key = None
  ∧ (∀ f, f ≠ key → this' !! f = Session_props s !! f)
  ∧ (∀ k, Session_get_props k this' st = Some (Session_get k s st)).

(** ** The registry invariant *)


(** The form of it that the operations maintain: the table is keyed by the
    sessions' ids, buckets are duplicate-free and never empty. *)
Record indexed (st : State) : Prop := {
  indexed_session : ∀ sid l,
    sessions st !! sid = Some l →
    ∃ s, heap st !! l = Some s ∧ Session.id s = sid
         ∧ ∀ u, Session.uid s = Some u →
                ∃ bucket, uidMap st !! u = Some bucket ∧ l ∈ bucket;
  indexed_bucket : ∀ u bucket,
    uidMap st !! u = Some bucket →
    NoDup bucket ∧ bucket ≠ []
    ∧ ∀ l, l ∈ bucket →
           ∃ s, heap st !! l = Some s ∧ Session.uid s = Some u
                ∧ sessions st !! Session.id s = Some l
}.

(** Every registered session satisfies [P]. *)
Definition registered_all (P : Session → Prop) (st : State) : Prop :=
  ∀ sid l s, sessions st !! sid = Some l → heap st !! l = Some s → P s.

(** No registered session is CLOSED. *)
Definition all_open : State → Prop :=
  registered_all (λ s, Session.__state__ s ≠ ST_CLOSED).

(** No registered session has uid 0. *)
Definition nonzero_uids : State → Prop :=
  registered_all (λ s, Session.uid s ≠ Some 0%Z).

(** What [unbind] and [remove] do to the index, for the session [l] of the
    bucket of [u]. *)
Definition unindex (u : Z) (l : loc) (m : gmap Z (list loc))
    : gmap Z (list loc) :=
  match m !! u with
  | Some b =>
      let b' := splice_first (λ y, bool_decide (y = l)) b in
      if bool_decide (b' = []) then delete u m else <[u := b']> m
  | None => m
  end.

(** The discipline of the callers: a session is created under a sid that
    is not in the table, and no session is bound to uid 0. *)
Definition disciplined (st : State) (op : Op) : Prop :=
  match op with
  | Create sid _ _ => sessions st !! sid = None
  | Bind _ uid _ => uid ≠ 0%Z
  | _ => True
  end.

Definition maintained (st : State) : Prop :=
  indexed st ∧ all_open st ∧ nonzero_uids st.

(** ** What holds whatever the callers do *)

(** The table is keyed by the ids of the sessions. *)
Definition keyed (st : State) : Prop :=
  ∀ sid l, sessions st !! sid = Some l →
           ∃ s, heap st !! l = Some s ∧ Session.id s = sid.

(** No bucket is empty, none holds two sessions with the same id, and
    under the singleSession policy a bucket holds one session. *)
Definition buckets_ok (st : State) : Prop :=
  ∀ u b, uidMap st !! u = Some b →
         b ≠ []
         ∧ (∀ l, l ∈ b → is_Some (heap st !! l))
         ∧ NoDup (ids_of st b)
         ∧ (singleSession st = true → length b = 1).

Definition sound (st : State) : Prop :=
  keyed st ∧ all_open st ∧ buckets_ok st.

(** [st'] has the sessions of [st], with their ids, and its policy. *)
Definition keeps (st st' : State) : Prop :=
  singleSession st' = singleSession st
  ∧ ∀ l s, heap st !! l = Some s →
           ∃ s', heap st' !! l = Some s' ∧ Session.id s' = Session.id s.

(** * Registries used as examples *)

Definition open_state : State :=
  (SessionService_create 1 "connector-1" 9 (SessionService_new false)).2.

(** Session 1, bound to uid 42. *)
Definition bound_state : State :=
  exec (Bind 1 42 0)
    (exec (Create 1 "connector-1" 9) (SessionService_new false)).

(** Session 1, bound to uid 0. *)
Definition zero_state : State :=
  exec (Bind 1 0 0)
    (exec (Create 1 "connector-1" 9) (SessionService_new false)).

(** A registry in which sid 1 was bound to uid 42 and then created again:
    the table holds the new session, the bucket of 42 the old one. *)
Definition overwritten_state : State :=
  exec (Create 1 "connector-1" 10)
    (exec (Bind 1 42 0)
       (exec (Create 1 "connector-1" 9) (SessionService_new false))).



(** Sessions 1 and 2, both bound to uid 42. *)
Definition shared_uid_state : State :=
  exec (Bind 2 42 0)
    (exec (Bind 1 42 0)
       (exec (Create 2 "connector-1" 8)
          (exec (Create 1 "connector-1" 9) (SessionService_new false)))).

(** Sessions 1 and 2 under the singleSession policy, both asked to bind
    to 42. *)
Definition single_state : State :=
  exec (Bind 2 42 0)
    (exec (Bind 1 42 0)
       (exec (Create 2 "connector-1" 8)
          (exec (Create 1 "connector-1" 9) (SessionService_new true)))).

(** A frontend session over a session with settings [{score: 10}], bound
    to uid 7. *)
Definition score_state : State :=
  let '(_, st) := SessionService_create 1 "connector-1" 9 (SessionService_new false) in
  let st := SessionService_import 1 (KName "score") (VNum 10) VUndefined st in
  SessionService_bind 1 7 0 st.

Definition score_projection : option (FrontendSession * State) :=
  Session_toFrontendSession 0 score_state.

Definition settings_state : State :=
  let '(_, st) := SessionService_create 1 "connector-1" 9 (SessionService_new false) in
  SessionService_import 1 (KName "settings") (VNum 10) VUndefined st.

Definition settings_session : Session :=
  Session.mk 1 "connector-1" None 0 9 ST_INITED.

(** Session 1 with settings [{a: o}], where [o] is the object [{x: 1}]. *)
Definition nested_state : State :=
  let st := exec (Create 1 "connector-1" 9) (SessionService_new false) in
  let '(o, st) := object_new {[ "x" := VNum 1 ]} st in
  exec (Import 1 (KName "a") (VObj o) VUndefined) st.

(** Session 1 with settings [{a: 1, b: 2}] and an object [{b: 3, c: 4}]. *)
Definition merge_state : State :=
  let st := exec (Create 1 "connector-1" 9) (SessionService_new false) in
  let st := exec (Import 1 (KName "a") (VNum 1) VUndefined) st in
  let st := exec (Import 1 (KName "b") (VNum 2) VUndefined) st in
  (object_new {[ "b" := VNum 3; "c" := VNum 4 ]} st).2.

(** Session 1 with settings [{score: 10}] and a projection of it. *)
Definition projected_state : State :=
  match score_projection with
  | Some (_, st) => st
  | None => score_state
  end.

Definition projected_session : Session :=
  Session.mk 1 "connector-1" (Some 7%Z) 0 9 ST_INITED.

Definition projected_fs : FrontendSession :=
  FrontendSession.mk 1 "connector-1" (Some 7%Z) 1 0.

(** Sessions 1 and 2, bound to 42, and session 3, bound to 43. *)
Definition three_state : State :=
  exec (Bind 3 43 0) (exec (Create 3 "connector-1" 7) shared_uid_state).

(** * Properties *)

(** ** The object views agree with the typed fields *)

Lemma Session_get_props_typed key s st :
  Session_get_props key (Session_props s) st = Some (Session_get key s st).
Proof. reflexivity. Qed.

(** The constructor of [FrontendSession] is [clone] on the four fields of
    [FRONTEND_SESSION_FIELDS], then the two assignments. *)
Lemma FrontendSession_new_clone l s st :
  FrontendSession_props (FrontendSession_new l s st).1 =
  <["__session__" := VSession l]>
    (<["settings" := VObj (dclone (Session.settings s) st).1]>
       (clone (Session_props s) ∅ FRONTEND_SESSION_FIELDS)).
Proof.
  apply map_eq; intros f. unfold FrontendSession_new, FrontendSession_props,
    clone, Session_props, prop; simpl.
  repeat (rewrite lookup_insert; case_decide; [done|]). done.
Qed.

(** ** FrontendSession.export *)

Section ExportFields.
Variable fs : FrontendSession.

Lemma export_fields :
  FrontendSession_export fs =
  {[ "id" := VNum (FrontendSession.id fs);
     "frontendId" := VStr (FrontendSession.frontendId fs);
     "uid" := uid_value (FrontendSession.uid fs);
     "settings" := VObj (FrontendSession.settings fs) ]}.
Proof.
  unfold FrontendSession_export, clone, EXPORTED_SESSION_FIELDS; simpl.
  reflexivity.
Qed.

Lemma export_dom :
  dom (FrontendSession_export fs) =
  ({[ "id"; "frontendId"; "uid"; "settings" ]} : gset string).
Proof. rewrite export_fields, !dom_insert_L, dom_singleton_L. set_solver. Qed.
End ExportFields.

(** C9.  [export()] of a FrontendSession is an object with exactly the four
    properties id, frontendId, uid and settings, each holding the value of
    the FrontendSession's field of that name; on a session with settings
    [{score: 10}] and uid 7 it is
    [{id, frontendId, uid: 7, settings: {score: 10}}]. *)
Theorem FrontendSession_export_exact (fs : FrontendSession) :
  dom (FrontendSession_export fs)
    = ({[ "id"; "frontendId"; "uid"; "settings" ]} : gset string)
  ∧ (∀ f, f ∈ EXPORTED_SESSION_FIELDS →
       FrontendSession_export fs !! f = FrontendSession_props fs !! f)
  ∧ FrontendSession_export fs !! "id" = Some (VNum (FrontendSession.id fs))
  ∧ FrontendSession_export fs !! "frontendId"
      = Some (VStr (FrontendSession.frontendId fs))
  ∧ FrontendSession_export fs !! "uid"
      = Some (uid_value (FrontendSession.uid fs))
  ∧ FrontendSession_export fs !! "settings"
      = Some (VObj (FrontendSession.settings fs))
  ∧ (∃ fs7 st l,
       score_projection = Some (fs7, st)
       ∧ FrontendSession_export fs7
           = {[ "id" := VNum 1; "frontendId" := VStr "connector-1";
                "uid" := VNum 7; "settings" := VObj l ]}
       ∧ objects st !! l = Some {[ "score" := VNum 10 ]}).
Proof.
  split; [apply export_dom|].
  split.
  { intros f Hf. rewrite export_fields.
    unfold EXPORTED_SESSION_FIELDS in Hf. unfold FrontendSession_props.
    set_unfold. destruct Hf as [->|[->|[->|[->|[]]]]]; reflexivity. }
  rewrite export_fields. repeat split; try reflexivity.
  eexists _, _, _. split; [vm_compute; reflexivity|].
  split; [rewrite export_fields|]; vm_compute; reflexivity.
Qed.

(** ** Session.remove *)

(** [remove('settings')] deletes the settings field itself: [get] no longer
    finds the value stored under that key. *)
Lemma remove_settings_loses_store :
  heap settings_state !! 0 = Some settings_session
  ∧ Session_get "settings" settings_session settings_state = VNum 10
  ∧ Session_get_props "settings"
      (Session_remove "settings" (Session_props settings_session))
      settings_state = None
  ∧ ¬ remove_keeps_settings settings_session "settings" settings_state.
Proof.
  split; [vm_compute; reflexivity|].
  split; [vm_compute; reflexivity|].
  split; [vm_compute; reflexivity|].
  intros (_ & _ & H). specialize (H "settings"). vm_compute in H. discriminate.
Qed.

(** C8 (amended).  For every key other than ['settings'], [remove(key)]
    deletes the own property [key] of the Session object (be it [uid] or
    another identity field), leaves every other property as it is, and the
    settings store is untouched: [get(k)] reads what it read before, for
    every [k]. *)
Theorem Session_remove_own_property (s : Session) (key : string) (st : State) :
  key ≠ "settings" → remove_keeps_settings s key st.
Proof.
  intros Hkey. unfold remove_keeps_settings, Session_remove. simpl.
  split; [apply lookup_delete_eq|].
  split; [intros f Hf; by apply lookup_delete_ne|].
  intros k. unfold Session_get_props, prop.
  rewrite lookup_delete_ne by done. reflexivity.
Qed.

Lemma Session_remove_own_property_witness :
  remove_keeps_settings settings_session "uid" settings_state
  ∧ Session_props settings_session !! "uid" = Some VNull
  ∧ Session_remove "uid" (Session_props settings_session) !! "uid" = None.
Proof.
  split; [apply (Session_remove_own_property settings_session "uid"); discriminate|].
  split; reflexivity.
Defined.

(** ** The old two-argument forms of kick *)

(** C10.  [kick(uid, cb)] and [kickBySessionId(sid, cb)], with a function in
    the place of [reason], do what the three-argument calls do with the
    reason ['kick'] and that function as callback, whatever is passed (or
    not) as third argument. *)
Theorem kick_reason_omitted (uid sid : Z) (f : Callback) (third : Value)
    (st : State) :
  SessionService_kick uid (VFun f) third st
    = SessionService_kick uid (VStr "kick") (VFun f) st
  ∧ SessionService_kickBySessionId sid (VFun f) third st
    = SessionService_kickBySessionId sid (VStr "kick") (VFun f) st
  ∧ (∀ l, SessionService_get sid st = Some l →
       SessionService_kickBySessionId sid (VFun f) third st
       = nextTick (TInvokeCallback (VFun f) None)
           (Session_closed l (VStr "kick") st))
  ∧ (∀ bucket, SessionService_getByUid uid st = Some bucket →
       SessionService_kick uid (VFun f) third st
       = match close_each (ids_of st bucket) (VStr "kick") st with
         | Returned st' => Returned (nextTick (TInvokeCallback (VFun f) None) st')
         | Threw st' => Threw st'
         end).
Proof.
  split; [reflexivity|]. split; [reflexivity|]. split.
  - intros l Hl. unfold SessionService_kickBySessionId. simpl. by rewrite Hl.
  - intros bucket Hb. unfold SessionService_kick. simpl. by rewrite Hb.
Qed.

(** ** Frame lemmas: what each operation leaves alone *)

Lemma lookup_session_Some st sid l s :
  lookup_session st sid = Some (l, s) ↔
  sessions st !! sid = Some l ∧ heap st !! l = Some s.
Proof.
  unfold lookup_session. split.
  - destruct (sessions st !! sid) as [l'|]; simpl; [|done].
    destruct (heap st !! l') as [s'|] eqn:E; simpl; [|done].
    intros [= <- <-]. done.
  - intros [-> H]. simpl. by rewrite H.
Qed.

Lemma invokeCallback_frame cb err st :
  sessions (invokeCallback cb err st) = sessions st
  ∧ uidMap (invokeCallback cb err st) = uidMap st
  ∧ heap (invokeCallback cb err st) = heap st
  ∧ objects (invokeCallback cb err st) = objects st
  ∧ singleSession (invokeCallback cb err st) = singleSession st.
Proof. by destruct cb. Qed.

Lemma SessionService_remove_frame sid st :
  heap (SessionService_remove sid st) = heap st
  ∧ objects (SessionService_remove sid st) = objects st
  ∧ log (SessionService_remove sid st) = log st
  ∧ singleSession (SessionService_remove sid st) = singleSession st.
Proof.
  unfold SessionService_remove.
  destruct (lookup_session st sid) as [[l s]|]; [|done].
  destruct (Session.uid s) as [u|]; [|done].
  destruct (uidMap st !! u) as [b|]; [|done].
  destruct (existsb _ b); [|done]. by case_bool_decide.
Qed.

Lemma SessionService_remove_sessions sid st l s :
  lookup_session st sid = Some (l, s) →
  sessions (SessionService_remove sid st) = delete (Session.id s) (sessions st).
Proof.
  unfold SessionService_remove. intros ->.
  destruct (Session.uid s) as [u|]; [|done].
  destruct (uidMap st !! u) as [b|]; [|done].
  destruct (existsb _ b); [|done]. by case_bool_decide.
Qed.

(** ** Session.closed *)


(** What the first [closed(reason)] of an open session does. *)
Lemma Session_closed_open this session reason st :
  heap st !! this = Some session →
  Session.__state__ session ≠ ST_CLOSED →
  let closed := Session.set_state ST_CLOSED session in
  let st2 := SessionService_remove (Session.id session)
               (set_heap (insert this closed) st) in
  let fs := (FrontendSession_new this closed st2).1 in
  let st' := Session_closed this reason st in
  heap st' = <[this := closed]> (heap st)
  ∧ sessions st' = sessions st2
  ∧ uidMap st' = uidMap st2
  ∧ singleSession st' = singleSession st
  ∧ log st' = log st ++ [SessionEmit this (NClosed fs reason);
                         SocketEmit (Session.__socket__ session) "closing" reason;
                         NextTick (TDisconnect (Session.__socket__ session))].
Proof.
  intros Hs Hopen. simpl. unfold Session_closed. rewrite Hs.
  rewrite bool_decide_eq_false_2 by done. simpl.
  destruct (SessionService_remove_frame (Session.id session)
              (set_heap (insert this (Session.set_state ST_CLOSED session)) st))
    as (Hh & Ho & Hl & Hsg).
  simpl in *. rewrite Hh, Hl, Hsg. repeat split.
  by rewrite <- !app_assoc.
Qed.

Lemma Session_closed_closed this reason st :
  closed_at st this → Session_closed this reason st = st.
Proof.
  intros (s & Hs & Hc). unfold Session_closed. rewrite Hs.
  by rewrite bool_decide_eq_true_2.
Qed.

Lemma Session_closed_closes this session reason st :
  heap st !! this = Some session →
  closed_at (Session_closed this reason st) this.
Proof.
  intros Hs. destruct (decide (Session.__state__ session = ST_CLOSED)) as [Hc|Ho].
  - rewrite Session_closed_closed; by exists session.
  - destruct (Session_closed_open this session reason st Hs Ho) as (Hh & _).
    exists (Session.set_state ST_CLOSED session). rewrite Hh.
    by rewrite lookup_insert_eq.
Qed.

(** ** bind *)

(** Binding sid 1 to 42 there meets none of the error cases, and yet
    nothing is appended: the bucket already holds a session with id 1. *)
Lemma bind_duplicate_guard :
  reachable (λ _ _, True) overwritten_state
  ∧ SessionService_bind 1 42 5 overwritten_state
    = nextTick (TCall 5 None) overwritten_state
  ∧ ¬ bind_outcome false overwritten_state 1 42 5.
Proof.
  split; [repeat (apply reachable_exec; [|done]); apply reachable_new|].
  split; [vm_compute; reflexivity|].
  intros H. unfold bind_outcome in H.
  replace (lookup_session overwritten_state 1)
    with (Some (1, Session.mk 1 "connector-1" None 1 10 ST_INITED)) in H
    by (vm_compute; reflexivity).
  simpl in H. destruct H as (_ & _ & _ & Hu & _).
  apply (f_equal (λ m, m !! 42%Z)) in Hu. vm_compute in Hu. discriminate.
Qed.

(** C1 (amended).  For every call [bind(sid, uid, cb)], with any uid, on
    a session whose uid is not 0, the cases are, in this order:
    sid not in the table: SessionNotFound; the session's uid is the given
    one: no-op success; the session's uid is another one: AlreadyBound;
    singleSession and a bucket for uid exists: SingleSessionViolation; the
    bucket of uid already holds a session with this session's id: no-op
    success; otherwise the session is appended to [uidMap[uid]], its uid is
    set, [bind] is emitted and [cb] is called with no error. *)
Theorem SessionService_bind_cases (st : State) (sid uid : Z) (cb : Callback) :
  (∀ l s, lookup_session st sid = Some (l, s) → Session.uid s ≠ Some 0%Z) →
  bind_outcome true st sid uid cb.
Proof.
  intros Hzero. unfold bind_outcome, SessionService_bind.
  destruct (lookup_session st sid) as [[l s]|] eqn:Hl.
  2:{ split; [done|]. by right. }
  specialize (Hzero l s eq_refl).
  destruct (Session.uid s) as [u|] eqn:Hu; simpl.
  - assert (u ≠ 0%Z) as Hu0 by congruence.
    apply Z.eqb_neq in Hu0. rewrite Hu0. simpl.
    destruct (decide (u = uid)) as [->|Hne].
    + rewrite bool_decide_eq_true_2 by done. split; [done|]. by left.
    + rewrite bool_decide_eq_false_2 by congruence. split; [done|]. by right.
  - destruct (singleSession st && bool_decide (is_Some (uidMap st !! uid))).
    { split; [done|]. by right. }
    destruct (existsb _ _); simpl.
    { split; [done|]. by right. }
    repeat split. eexists. split; [by right|]. simpl. by rewrite <- app_assoc.
Qed.

Lemma SessionService_bind_cases_witness :
  bind_outcome true overwritten_state 1 42 5.
Proof.
  apply SessionService_bind_cases.
  intros l s H. vm_compute in H. by injection H as <- <-.
Defined.

(** ** Delivery of the callback of bind and unbind *)

(** [bind] on a session already bound to the same (non-zero) uid calls
    [cb] in the call itself; it schedules nothing. *)
Lemma SessionService_bind_same_uid st sid uid cb l s :
  lookup_session st sid = Some (l, s) → Session.uid s = Some uid →
  uid ≠ 0%Z →
  SessionService_bind sid uid cb st = record (Invoke cb None) st.
Proof.
  intros Hl Hu H0. unfold SessionService_bind. rewrite Hl, Hu. simpl.
  apply Z.eqb_neq in H0. rewrite H0. simpl.
  by rewrite bool_decide_eq_true_2.
Qed.

(** Every other path of [bind] defers the callback. *)
Lemma SessionService_bind_deferred st sid uid cb :
  (∀ l s, lookup_session st sid = Some (l, s) →
          ¬ (truthy (Session.uid s) = true ∧ Session.uid s = Some uid)) →
  ∃ evs err, log (SessionService_bind sid uid cb st)
             = log st ++ evs ++ [NextTick (TCall cb err)]
             ∧ ∀ f e, Invoke f e ∉ evs.
Proof.
  intros Hnot. unfold SessionService_bind.
  destruct (lookup_session st sid) as [[l s]|] eqn:Hl.
  2:{ exists [], (Some (SessionNotFound sid)). split; [done|]. set_solver. }
  specialize (Hnot l s eq_refl).
  destruct (truthy (Session.uid s)) eqn:Ht.
  { case_bool_decide; [by destruct Hnot|].
    eexists [], _. split; [done|]. set_solver. }
  destruct (singleSession st && _).
  { eexists [], _. split; [done|]. set_solver. }
  destruct (existsb _ _).
  { eexists [], _. split; [done|]. set_solver. }
  exists [SessionEmit l (NBind uid)], None. simpl.
  split; [by rewrite <- app_assoc|]. set_solver.
Qed.

(** [unbind] always defers it. *)
Lemma SessionService_unbind_deferred st sid uid cb :
  ∃ evs err, log (SessionService_unbind sid uid cb st)
             = log st ++ evs ++ [NextTick (TCall cb err)]
             ∧ ∀ f e, Invoke f e ∉ evs.
Proof.
  unfold SessionService_unbind.
  destruct (lookup_session st sid) as [[l s]|] eqn:Hl.
  2:{ eexists [], _. split; [done|]. set_solver. }
  destruct (negb _ || negb _).
  { eexists [], _. split; [done|]. set_solver. }
  exists [SessionEmit l (NUnbind uid)], None. simpl.
  split; [|set_solver]. rewrite <- app_assoc. simpl. f_equal.
  destruct (uidMap st !! uid); [|done]. by destruct (bool_decide _).
Qed.

(** C4, at the failing call.  [bind(1, 42, cb)] on a session that is bound
    to 42 already runs [cb] inside the call: the log of the call is the
    invocation itself, and no task is scheduled. *)
Theorem bind_same_uid_calls_back_in_call :
  log bound_state = [SessionEmit 0 (NBind 42); NextTick (TCall 0 None)]
  ∧ log (SessionService_bind 1 42 5 bound_state)
    = log bound_state ++ [Invoke 5 None]
  ∧ ∀ t, NextTick t ∈ log (SessionService_bind 1 42 5 bound_state) →
         t = TCall 0 None.
Proof.
  split; [vm_compute; reflexivity|].
  split; [vm_compute; reflexivity|].
  intros t Ht. vm_compute in Ht. set_unfold.
  destruct Ht as [Ht|[Ht|[Ht|[]]]]; congruence.
Qed.

(** ** unbind *)

(** C3, at the failing call.  Session 1 is bound to uid 0: its uid is 0 and
    it is the one session of [uidMap[0]].  [unbind(1, 0, cb)] answers
    NotBound and leaves the session bound. *)
Theorem unbind_uid_zero_not_bound :
  sessions zero_state !! 1%Z = Some 0
  ∧ (Session.uid <$> heap zero_state !! 0) = Some (Some 0%Z)
  ∧ uidMap zero_state !! 0%Z = Some [0]
  ∧ SessionService_unbind 1 0 5 zero_state
    = nextTick (TCall 5 (Some (NotBound (Some 0%Z)))) zero_state.
Proof. repeat split; vm_compute; reflexivity. Qed.

(** On a registered session the two paths of [unbind] are as follows,
    the second one for a uid other than 0. *)
Lemma SessionService_unbind_not_bound st sid uid cb l s :
  lookup_session st sid = Some (l, s) → Session.uid s ≠ Some uid →
  SessionService_unbind sid uid cb st
  = nextTick (TCall cb (Some (NotBound (Session.uid s)))) st.
Proof.
  intros Hl Hu. unfold SessionService_unbind. rewrite Hl.
  rewrite (bool_decide_eq_false_2 _ Hu). simpl. by rewrite orb_true_r.
Qed.

Lemma SessionService_unbind_bound st sid uid cb l s :
  lookup_session st sid = Some (l, s) → Session.uid s = Some uid →
  uid ≠ 0%Z →
  let st' := SessionService_unbind sid uid cb st in
  sessions st' = sessions st
  ∧ singleSession st' = singleSession st
  ∧ objects st' = objects st
  ∧ heap st' = alter (Session.set_uid None) l (heap st)
  ∧ log st' = log st ++ [SessionEmit l (NUnbind uid); NextTick (TCall cb None)]
  ∧ uidMap st' =
      match uidMap st !! uid with
      | Some bucket =>
          let bucket' := splice_first (has_id st sid) bucket in
          if bool_decide (bucket' = []) then delete uid (uidMap st)
          else <[uid := bucket']> (uidMap st)
      | None => uidMap st
      end.
Proof.
  intros Hl Hu H0. simpl. unfold SessionService_unbind. rewrite Hl, Hu. simpl.
  apply Z.eqb_neq in H0. rewrite H0. simpl.
  rewrite bool_decide_eq_true_2 by done. simpl.
  rewrite <- app_assoc. simpl.
  destruct (uidMap st !! uid); [|done]. by destruct (bool_decide _).
Qed.

(** The bucket a successful [unbind] leaves is never an empty one:
    [getByUid] then answers nothing rather than an empty array. *)
Lemma SessionService_unbind_no_empty_bucket st sid uid cb l s :
  lookup_session st sid = Some (l, s) → Session.uid s = Some uid →
  uid ≠ 0%Z →
  SessionService_getByUid uid (SessionService_unbind sid uid cb st) ≠ Some [].
Proof.
  intros Hl Hu H0.
  destruct (SessionService_unbind_bound st sid uid cb l s Hl Hu H0)
    as (_ & _ & _ & _ & _ & Hm).
  unfold SessionService_getByUid. simpl in Hm. rewrite Hm.
  destruct (uidMap st !! uid) as [b|] eqn:Hb; [|by rewrite Hb].
  case_bool_decide.
  - by rewrite lookup_delete_eq.
  - rewrite lookup_insert_eq. congruence.
Qed.

(** ** The settings of a FrontendSession *)

Section Projection.
Variables (st st' : State) (this : loc) (session : Session)
          (fs : FrontendSession).
Hypothesis Hsession : heap st !! this = Some session.
Hypothesis Hproj : Session_toFrontendSession this st = Some (fs, st').

Let settings_of_fs :
  FrontendSession.settings fs = fresh (dom (objects st))
  ∧ objects st' = <[fresh (dom (objects st)) :=
                      default ∅ (objects st !! Session.settings session)]>
                    (objects st).
Proof.
  unfold Session_toFrontendSession in Hproj. rewrite Hsession in Hproj.
  simpl in Hproj. by injection Hproj as <- <-.
Qed.

(** The settings object of the projection is a new one. *)
Lemma projection_settings_fresh :
  objects st !! FrontendSession.settings fs = None.
Proof.
  destruct settings_of_fs as [-> _].
  apply not_elem_of_dom, is_fresh.
Qed.

(** It has the properties the session's settings have at that moment. *)
Lemma projection_settings_snapshot o :
  objects st !! Session.settings session = Some o →
  objects st' !! FrontendSession.settings fs = Some o
  ∧ objects st' !! Session.settings session = Some o.
Proof.
  intros Ho. destruct settings_of_fs as [Hf ->]. rewrite Hf, Ho. simpl.
  split; [apply lookup_insert_eq|].
  rewrite lookup_insert_ne; [done|].
  intros E. pose proof projection_settings_fresh as Hn.
  rewrite Hf, E, Ho in Hn. done.
Qed.

(** [session.set(...)] after the projection does not reach it. *)
Lemma projection_not_reached_by_set key value o :
  objects st !! Session.settings session = Some o →
  objects (Session_set key value session st') !! FrontendSession.settings fs
  = Some o.
Proof.
  intros Ho. destruct (projection_settings_snapshot o Ho) as [Hfs _].
  assert (Session.settings session ≠ FrontendSession.settings fs) as Hne.
  { intros E. pose proof projection_settings_fresh as Hn.
    rewrite <- E, Ho in Hn. done. }
  unfold Session_set. destruct key; simpl;
    by rewrite lookup_alter_ne.
Qed.
End Projection.

(** C7, at the failing input.  The projection of session 1 holds, under
    [a], the very object the session holds: after [o.x = 2] through the
    session, the FrontendSession taken before reads 2 as well. *)
Theorem dclone_shares_nested_values :
  ∃ session fs st o,
    heap nested_state !! 0 = Some session
    ∧ Session_toFrontendSession 0 nested_state = Some (fs, st)
    ∧ Session_get "a" session st = VObj o
    ∧ FrontendSession_get "a" fs st = VObj o
    ∧ FrontendSession.settings fs ≠ Session.settings session
    ∧ prop (default ∅ (objects st !! o)) "x" = VNum 1
    ∧ let st2 := object_set o "x" (VNum 2) st in
      FrontendSession_get "a" fs st2 = VObj o
      ∧ prop (default ∅ (objects st2 !! o)) "x" = VNum 2.
Proof.
  eexists _, _, _, _.
  split; [vm_compute; reflexivity|].
  split; [vm_compute; reflexivity|].
  split; [vm_compute; reflexivity|].
  split; [vm_compute; reflexivity|].
  split; [vm_compute; discriminate|].
  split; [vm_compute; reflexivity|].
  split; vm_compute; reflexivity.
Qed.

(** ** The stated invariant follows from the maintained one *)



Lemma indexed_ext st st' :
  sessions st' = sessions st → uidMap st' = uidMap st → heap st' = heap st →
  indexed st → indexed st'.
Proof.
  intros Hs Hu Hh [H1 H2]. split; rewrite ?Hs, ?Hu, ?Hh; done.
Qed.

(** A session of the table is the only one with its id there and in the
    buckets. *)
Lemma indexed_id_unique st u bucket sid l s l' :
  indexed st → sessions st !! sid = Some l →
  uidMap st !! u = Some bucket → l' ∈ bucket →
  heap st !! l' = Some s → Session.id s = sid → l' = l.
Proof.
  intros [_ Hb] Hl Hbu Hl' Hh Hid.
  destruct (Hb u bucket Hbu) as (_ & _ & Hel).
  destruct (Hel l' Hl') as (s' & Hh' & _ & Hreg). congruence.
Qed.

(** ** The splice loop *)

Lemma splice_first_ext p q (b : list loc) :
  (∀ x, x ∈ b → p x = q x) → splice_first p b = splice_first q b.
Proof.
  induction b as [|x b IH]; intros H; [done|]. simpl.
  rewrite <- (H x) by set_solver. destruct (p x); [done|].
  f_equal. apply IH. intros y Hy. apply H. set_solver.
Qed.

Lemma splice_first_eq (l : loc) (b : list loc) :
  NoDup b →
  (∀ x, x ∈ splice_first (λ y, bool_decide (y = l)) b ↔ x ∈ b ∧ x ≠ l)
  ∧ NoDup (splice_first (λ y, bool_decide (y = l)) b).
Proof.
  induction 1 as [|x b Hx Hnd [IH1 IH2]]; simpl.
  { split; [set_solver|constructor]. }
  destruct (decide (x = l)) as [->|Hne].
  - rewrite bool_decide_eq_true_2 by done. split; [|done].
    intros y. set_solver.
  - rewrite bool_decide_eq_false_2 by done. split.
    + intros y. rewrite !elem_of_cons, IH1. naive_solver.
    + constructor; [|done]. rewrite IH1. naive_solver.
Qed.

Lemma existsb_has_id st sid (b : list loc) l s :
  l ∈ b → heap st !! l = Some s → Session.id s = sid →
  existsb (has_id st sid) b = true.
Proof.
  intros Hl Hh Hid. apply existsb_exists. exists l.
  split; [by apply list_elem_of_In|].
  unfold has_id. rewrite Hh. by apply bool_decide_eq_true_2.
Qed.

(** In an indexed registry the id test of the loops singles out the
    session of the table. *)
Lemma has_id_registered st u bucket sid l x :
  indexed st → sessions st !! sid = Some l →
  uidMap st !! u = Some bucket → x ∈ bucket →
  has_id st sid x = bool_decide (x = l).
Proof.
  intros Hi Hl Hb Hx. unfold has_id.
  destruct (indexed_bucket st Hi u bucket Hb) as (_ & _ & Hel).
  destruct (Hel x Hx) as (s & Hh & _ & Hreg). rewrite Hh.
  destruct (decide (x = l)) as [->|Hne].
  - rewrite !bool_decide_eq_true_2; [done..|].
    destruct (indexed_session st Hi sid l Hl) as (s' & ? & ? & _). congruence.
  - rewrite !bool_decide_eq_false_2; [done..|]. congruence.
Qed.

Lemma unindex_lookup_ne u l m u' :
  u' ≠ u → unindex u l m !! u' = m !! u'.
Proof.
  intros Hne. unfold unindex. destruct (m !! u) as [b|]; [|done]. simpl.
  destruct (bool_decide _).
  - by rewrite lookup_delete_ne.
  - by rewrite lookup_insert_ne.
Qed.

Lemma unindex_lookup_eq u l m b b' :
  m !! u = Some b → NoDup b → unindex u l m !! u = Some b' →
  b' ≠ [] ∧ NoDup b' ∧ ∀ x, x ∈ b' ↔ x ∈ b ∧ x ≠ l.
Proof.
  intros Hb Hnd. unfold unindex. rewrite Hb. simpl.
  destruct (splice_first_eq l b Hnd) as [Hel Hnd'].
  destruct (bool_decide _) eqn:E.
  - by rewrite lookup_delete_eq.
  - rewrite lookup_insert_eq. intros [= <-].
    apply bool_decide_eq_false in E. done.
Qed.

Lemma unindex_lookup_other u l m b x :
  m !! u = Some b → NoDup b → x ∈ b → x ≠ l →
  ∃ b', unindex u l m !! u = Some b' ∧ x ∈ b'.
Proof.
  intros Hb Hnd Hx Hne. unfold unindex. rewrite Hb. simpl.
  destruct (splice_first_eq l b Hnd) as [Hel _].
  assert (x ∈ splice_first (λ y, bool_decide (y = l)) b) as Hx'
    by (apply Hel; done).
  destruct (bool_decide _) eqn:E.
  - apply bool_decide_eq_true in E. rewrite E in Hx'.
    by apply elem_of_nil in Hx'.
  - rewrite lookup_insert_eq. eauto.
Qed.

Lemma unindex_lookup_head u l m rest :
  m !! u = Some (l :: rest) →
  unindex u l m = if bool_decide (rest = []) then delete u m
                  else <[u := rest]> m.
Proof.
  intros Hb. unfold unindex. rewrite Hb. cbn [splice_first].
  by rewrite (bool_decide_eq_true_2 (l = l)).
Qed.

(** ** The operations maintain the index *)

Section Maintain.
Variable st : State.
Hypothesis Hi : indexed st.

(** Fields other than [id] and [uid] do not matter. *)
Lemma indexed_update this s s' :
  heap st !! this = Some s →
  Session.id s' = Session.id s → Session.uid s' = Session.uid s →
  indexed (set_heap (insert this s') st).
Proof.
  intros Hs Hid Huid. destruct Hi as [H1 H2]. split; simpl.
  - intros sid l Hl. destruct (H1 sid l Hl) as (s0 & Hh & Hid0 & Hb).
    destruct (decide (l = this)) as [->|Hne].
    + exists s'. rewrite lookup_insert_eq. repeat split; [congruence|].
      intros u Hu. apply Hb. congruence.
    + exists s0. by rewrite lookup_insert_ne.
  - intros u b Hb. destruct (H2 u b Hb) as (Hnd & Hne & Hel).
    repeat split; [done..|]. intros l Hl.
    destruct (Hel l Hl) as (s0 & Hh & Hu & Hreg).
    destruct (decide (l = this)) as [->|Hneq].
    + exists s'. rewrite lookup_insert_eq.
      repeat split; congruence.
    + exists s0. by rewrite lookup_insert_ne.
Qed.

Section Registered.
Variables (sid : Z) (l : loc) (s : Session).
Hypothesis Hl : sessions st !! sid = Some l.
Hypothesis Hs : heap st !! l = Some s.

Lemma registered_id : Session.id s = sid.
Proof.
  destruct (indexed_session st Hi sid l Hl) as (s' & ? & ? & _).
  congruence.
Qed.

Lemma registered_bucket u :
  Session.uid s = Some u → ∃ b, uidMap st !! u = Some b ∧ l ∈ b.
Proof.
  destruct (indexed_session st Hi sid l Hl) as (s' & ? & ? & Hb).
  assert (s' = s) as -> by congruence. apply Hb.
Qed.

(** A session of a bucket is the registered one iff it has its id. *)
Lemma bucket_session_registered u b x sx :
  uidMap st !! u = Some b → x ∈ b → heap st !! x = Some sx →
  (Session.id sx = sid ↔ x = l).
Proof.
  intros Hb Hx Hsx. split.
  - intros Hid. by eapply indexed_id_unique.
  - intros ->. assert (sx = s) as -> by congruence. apply registered_id.
Qed.

(** [remove], for a session without uid. *)
Lemma indexed_deregister :
  Session.uid s = None → indexed (set_sessions (delete sid) st).
Proof.
  intros Hu. destruct Hi as [H1 H2]. split; simpl.
  - intros sid' l' Hl'. apply lookup_delete_Some in Hl' as [Hne Hl'].
    apply H1, Hl'.
  - intros u b Hb. destruct (H2 u b Hb) as (Hnd & Hne & Hel).
    repeat split; [done..|]. intros x Hx.
    destruct (Hel x Hx) as (sx & Hsx & Hux & Hreg).
    exists sx. repeat split; [done..|].
    rewrite lookup_delete_ne; [done|].
    intros E. rewrite <- E in Hreg.
    assert (x = l) as -> by congruence. congruence.
Qed.

(** [remove], for a session with a uid. *)
Lemma indexed_deregister_unindex u :
  Session.uid s = Some u →
  indexed (set_uidMap (unindex u l) (set_sessions (delete sid) st)).
Proof.
  intros Hu. destruct (registered_bucket u Hu) as (b & Hb & Hlb).
  pose proof Hi as [H1 H2].
  destruct (H2 u b Hb) as (Hnd & _ & _). split; simpl.
  - intros sid' l' Hl'. apply lookup_delete_Some in Hl' as [Hne Hl'].
    destruct (H1 sid' l' Hl') as (s' & Hs' & Hid' & Hb').
    exists s'. repeat split; [done..|]. intros u' Hu'.
    destruct (Hb' u' Hu') as (b' & Hbu' & Hlb').
    destruct (decide (u' = u)) as [->|Hneu].
    + assert (b' = b) as -> by congruence.
      apply (unindex_lookup_other u l _ b); [done..|].
      intros ->. assert (s' = s) by congruence.
      pose proof registered_id. congruence.
    + exists b'. by rewrite unindex_lookup_ne.
  - intros u' b' Hb'. destruct (decide (u' = u)) as [->|Hneu].
    + destruct (unindex_lookup_eq u l _ b b' Hb Hnd Hb')
        as (Hne' & Hnd' & Hel').
      repeat split; [done..|]. intros x Hx. apply Hel' in Hx as [Hx Hxl].
      destruct (H2 u b Hb) as (_ & _ & Hel).
      destruct (Hel x Hx) as (sx & Hsx & Hux & Hreg).
      exists sx. repeat split; [done..|].
      rewrite lookup_delete_ne; [done|].
      intros E. rewrite <- E in Hreg. congruence.
    + rewrite unindex_lookup_ne in Hb' by done.
      destruct (H2 u' b' Hb') as (Hnd' & Hne' & Hel).
      repeat split; [done..|]. intros x Hx.
      destruct (Hel x Hx) as (sx & Hsx & Hux & Hreg).
      exists sx. repeat split; [done..|].
      rewrite lookup_delete_ne; [done|].
      intros E. rewrite <- E in Hreg.
      assert (x = l) as -> by congruence. congruence.
Qed.

(** [unbind] *)
Lemma indexed_unindex u :
  Session.uid s = Some u →
  indexed (set_heap (alter (Session.set_uid None) l)
             (set_uidMap (unindex u l) st)).
Proof.
  intros Hu. destruct (registered_bucket u Hu) as (b & Hb & Hlb).
  pose proof Hi as [H1 H2].
  destruct (H2 u b Hb) as (Hnd & _ & _). split; simpl.
  - intros sid' l' Hl'.
    destruct (H1 sid' l' Hl') as (s' & Hs' & Hid' & Hb').
    destruct (decide (l' = l)) as [->|Hnel].
    + exists (Session.set_uid None s'). rewrite lookup_alter_eq, Hs'.
      repeat split; [done..|]. simpl. done.
    + exists s'. rewrite lookup_alter_ne by done.
      repeat split; [done..|]. intros u' Hu'.
      destruct (Hb' u' Hu') as (b' & Hbu' & Hlb').
      destruct (decide (u' = u)) as [->|Hneu].
      * assert (b' = b) as -> by congruence.
        by apply (unindex_lookup_other u l _ b).
      * exists b'. by rewrite unindex_lookup_ne.
  - intros u' b' Hb'.
    assert (∃ b0, uidMap st !! u' = Some b0
                  ∧ b' ≠ [] ∧ NoDup b'
                  ∧ ∀ x, x ∈ b' → x ∈ b0 ∧ x ≠ l) as (b0 & Hb0 & ? & ? & Hsub).
    { destruct (decide (u' = u)) as [->|Hneu].
      - exists b. destruct (unindex_lookup_eq u l _ b b' Hb Hnd Hb')
          as (? & ? & Hel').
        do 3 (split; [done|]). intros x Hx. by apply Hel'.
      - rewrite unindex_lookup_ne in Hb' by done. exists b'.
        destruct (H2 u' b' Hb') as (? & ? & Hel).
        do 3 (split; [done|]). intros x Hx. split; [done|]. intros ->.
        destruct (Hel l Hx) as (s' & ? & ? & _). congruence. }
    repeat split; [done..|]. intros x Hx.
    destruct (Hsub x Hx) as [Hx0 Hxl].
    destruct (H2 u' b0 Hb0) as (_ & _ & Hel).
    destruct (Hel x Hx0) as (sx & Hsx & Hux & Hreg).
    exists sx. by rewrite lookup_alter_ne.
Qed.
End Registered.
End Maintain.

Section MaintainBind.
Variables (st : State) (sid uid : Z) (l : loc) (s : Session).
Hypothesis Hi : indexed st.
Hypothesis Hl : sessions st !! sid = Some l.
Hypothesis Hs : heap st !! l = Some s.
Hypothesis Hu : Session.uid s = None.

Let bucket := default [] (uidMap st !! uid).

Lemma unbound_not_in_bucket u b : uidMap st !! u = Some b → l ∉ b.
Proof.
  intros Hb Hin. destruct (indexed_bucket st Hi u b Hb) as (_ & _ & Hel).
  destruct (Hel l Hin) as (s' & ? & ? & _). congruence.
Qed.

Lemma bucket_old x :
  x ∈ bucket → uidMap st !! uid = Some bucket ∧ x ≠ l.
Proof.
  unfold bucket. destruct (uidMap st !! uid) as [b|] eqn:Hb; simpl.
  - intros Hx. split; [done|]. intros ->.
    by apply (unbound_not_in_bucket uid b).
  - intros Hx. by apply elem_of_nil in Hx.
Qed.

(** The success path of [bind]. *)
Lemma indexed_index :
  indexed (set_heap (alter (Session.set_uid (Some uid)) l)
             (set_uidMap (insert uid (bucket ++ [l])) st)).
Proof.
  pose proof Hi as [H1 H2]. split; simpl.
  - intros sid' l' Hl'.
    destruct (H1 sid' l' Hl') as (s' & Hs' & Hid' & Hb').
    destruct (decide (l' = l)) as [->|Hnel].
    + exists (Session.set_uid (Some uid) s'). rewrite lookup_alter_eq, Hs'.
      repeat split; [done..|]. simpl. intros u [= <-].
      exists (bucket ++ [l]). rewrite lookup_insert_eq. set_solver.
    + exists s'. rewrite lookup_alter_ne by done.
      repeat split; [done..|]. intros u' Hu'.
      destruct (Hb' u' Hu') as (b' & Hbu' & Hlb').
      destruct (decide (u' = uid)) as [->|Hneu].
      * exists (bucket ++ [l]). rewrite lookup_insert_eq.
        split; [done|]. unfold bucket. rewrite Hbu'. simpl. set_solver.
      * exists b'. by rewrite lookup_insert_ne.
  - intros u' b' Hb'. destruct (decide (u' = uid)) as [->|Hneu].
    + rewrite lookup_insert_eq in Hb'. injection Hb' as <-.
      split; [|split].
      * apply NoDup_app. split; [|split].
        -- unfold bucket. destruct (uidMap st !! uid) as [b|] eqn:Hb; simpl.
           ++ by destruct (H2 uid b Hb).
           ++ constructor.
        -- intros x Hx Hxl. apply list_elem_of_singleton in Hxl as ->.
           by destruct (bucket_old l Hx).
        -- apply NoDup_singleton.
      * by destruct bucket.
      * intros x Hx. apply elem_of_app in Hx as [Hx|Hx].
        -- destruct (bucket_old x Hx) as [Hb Hne].
           destruct (H2 uid bucket Hb) as (_ & _ & Hel).
           destruct (Hel x Hx) as (sx & ? & ? & ?).
           exists sx. by rewrite lookup_alter_ne.
        -- apply list_elem_of_singleton in Hx as ->.
           exists (Session.set_uid (Some uid) s).
           rewrite lookup_alter_eq, Hs. repeat split; simpl.
           destruct (H1 sid l Hl) as (s' & ? & ? & _). congruence.
    + rewrite lookup_insert_ne in Hb' by done.
      destruct (H2 u' b' Hb') as (? & ? & Hel).
      repeat split; [done..|]. intros x Hx.
      destruct (Hel x Hx) as (sx & ? & ? & ?).
      exists sx. rewrite lookup_alter_ne; [done|].
      intros <-. by apply (unbound_not_in_bucket u' b').
Qed.
End MaintainBind.

(** [create] with a sid that is not in the table. *)
Lemma indexed_create st sid frontendId socket :
  indexed st → sessions st !! sid = None →
  indexed (SessionService_create sid frontendId socket st).2.
Proof.
  intros [H1 H2] Hfresh. unfold SessionService_create.
  set (l := fresh (dom (heap st))).
  assert (heap st !! l = None) as Hl by apply not_elem_of_dom, is_fresh.
  split; simpl.
  - intros sid' l' Hl'. destruct (decide (sid' = sid)) as [->|Hne].
    + rewrite lookup_insert_eq in Hl'. injection Hl' as <-.
      eexists. rewrite lookup_insert_eq. repeat split. simpl. done.
    + rewrite lookup_insert_ne in Hl' by done.
      destruct (H1 sid' l' Hl') as (s' & Hs' & ? & ?).
      exists s'. rewrite lookup_insert_ne; [done|]. congruence.
  - intros u b Hb. destruct (H2 u b Hb) as (? & ? & Hel).
    repeat split; [done..|]. intros x Hx.
    destruct (Hel x Hx) as (sx & Hsx & ? & Hreg).
    exists sx. rewrite !lookup_insert_ne; [done| |]; congruence.
Qed.

(** [remove] in an indexed registry. *)
Lemma SessionService_remove_indexed st sid l s :
  indexed st → lookup_session st sid = Some (l, s) →
  SessionService_remove sid st =
  match Session.uid s with
  | Some u => set_uidMap (unindex u l) (set_sessions (delete sid) st)
  | None => set_sessions (delete sid) st
  end.
Proof.
  intros Hi Hls. pose proof Hls as [Hl Hs]%lookup_session_Some.
  unfold SessionService_remove. rewrite Hls.
  rewrite (registered_id st Hi sid l s Hl Hs).
  destruct (Session.uid s) as [u|] eqn:Hu; [|done].
  destruct (registered_bucket st Hi sid l s Hl Hs u Hu) as (b & Hb & Hlb).
  rewrite Hb.
  rewrite (existsb_has_id st sid b l s Hlb Hs
             (registered_id st Hi sid l s Hl Hs)).
  rewrite (splice_first_ext (has_id st sid) (λ y, bool_decide (y = l)) b).
  2:{ intros x Hx. by eapply has_id_registered. }
  unfold set_uidMap, unindex. simpl. rewrite Hb. simpl.
  by destruct (bool_decide _).
Qed.

Lemma indexed_remove st sid :
  indexed st → indexed (SessionService_remove sid st).
Proof.
  intros Hi. destruct (lookup_session st sid) as [[l s]|] eqn:Hls.
  2:{ unfold SessionService_remove. by rewrite Hls. }
  rewrite (SessionService_remove_indexed st sid l s Hi Hls).
  apply lookup_session_Some in Hls as [Hl Hs].
  destruct (Session.uid s) as [u|] eqn:Hu.
  - by eapply indexed_deregister_unindex.
  - by eapply indexed_deregister.
Qed.

(** [remove] only takes entries out of the table. *)
Lemma SessionService_remove_subset st sid sid' l :
  sessions (SessionService_remove sid st) !! sid' = Some l →
  sessions st !! sid' = Some l.
Proof.
  destruct (lookup_session st sid) as [[l0 s]|] eqn:Hls.
  - rewrite (SessionService_remove_sessions sid st l0 s Hls).
    by intros [_ ?]%lookup_delete_Some.
  - unfold SessionService_remove. by rewrite Hls.
Qed.

(** ** What bind and unbind change *)

Lemma SessionService_bind_effect st sid uid cb :
  let st' := SessionService_bind sid uid cb st in
  unchanged st st'
  ∨ ∃ l s, lookup_session st sid = Some (l, s)
           ∧ truthy (Session.uid s) = false
           ∧ singleSession st' = singleSession st
           ∧ sessions st' = sessions st
           ∧ objects st' = objects st
           ∧ uidMap st' = <[uid := default [] (uidMap st !! uid) ++ [l]]>
                            (uidMap st)
           ∧ heap st' = alter (Session.set_uid (Some uid)) l (heap st).
Proof.
  simpl. unfold SessionService_bind.
  destruct (lookup_session st sid) as [[l s]|] eqn:Hl; [|by left].
  destruct (truthy (Session.uid s)) eqn:Ht.
  { destruct (bool_decide _); by left. }
  destruct (singleSession st && _); [by left|].
  destruct (existsb _ _); [by left|].
  right. exists l, s. done.
Qed.

Lemma SessionService_unbind_effect st sid uid cb :
  let st' := SessionService_unbind sid uid cb st in
  unchanged st st'
  ∨ ∃ l s, lookup_session st sid = Some (l, s)
           ∧ Session.uid s = Some uid
           ∧ singleSession st' = singleSession st
           ∧ sessions st' = sessions st
           ∧ objects st' = objects st
           ∧ heap st' = alter (Session.set_uid None) l (heap st)
           ∧ uidMap st' =
               match uidMap st !! uid with
               | Some bucket =>
                   let bucket' := splice_first (has_id st sid) bucket in
                   if bool_decide (bucket' = []) then delete uid (uidMap st)
                   else <[uid := bucket']> (uidMap st)
               | None => uidMap st
               end.
Proof.
  simpl. unfold SessionService_unbind.
  destruct (lookup_session st sid) as [[l s]|] eqn:Hl; [|by left].
  destruct (negb (truthy (Session.uid s))) eqn:Ht; simpl; [by left|].
  destruct (bool_decide (Session.uid s = Some uid)) eqn:Hu; simpl; [|by left].
  apply bool_decide_eq_true in Hu.
  right. exists l, s. do 2 (split; [done|]).
  destruct (uidMap st !! uid); [|done]. by destruct (bool_decide _).
Qed.

Lemma unbind_unindex st sid uid l s :
  indexed st → lookup_session st sid = Some (l, s) →
  Session.uid s = Some uid →
  match uidMap st !! uid with
  | Some bucket =>
      let bucket' := splice_first (has_id st sid) bucket in
      if bool_decide (bucket' = []) then delete uid (uidMap st)
      else <[uid := bucket']> (uidMap st)
  | None => uidMap st
  end = unindex uid l (uidMap st).
Proof.
  intros Hi [Hl Hs]%lookup_session_Some Hu. unfold unindex.
  destruct (uidMap st !! uid) as [b|] eqn:Hb; [|done]. simpl.
  rewrite (splice_first_ext (has_id st sid) (λ y, bool_decide (y = l)) b);
    [done|].
  intros x Hx. by eapply has_id_registered.
Qed.

(** ** Properties of the registered sessions *)

Section RegisteredAll.
Variable P : Session → Prop.

Lemma registered_all_ext st st' :
  sessions st' = sessions st → heap st' = heap st →
  registered_all P st → registered_all P st'.
Proof. intros Hs Hh H. unfold registered_all. by rewrite Hs, Hh. Qed.

Lemma registered_all_remove st sid :
  registered_all P st → registered_all P (SessionService_remove sid st).
Proof.
  intros H sid' l s Hl Hs.
  apply SessionService_remove_subset in Hl.
  destruct (SessionService_remove_frame sid st) as (Hh & _).
  rewrite Hh in Hs. eauto.
Qed.

Lemma registered_all_create st sid frontendId socket :
  (∀ o, P (Session.mk sid frontendId None o socket ST_INITED)) →
  indexed st → registered_all P st →
  registered_all P (SessionService_create sid frontendId socket st).2.
Proof.
  intros Hnew Hi H sid' l s. unfold SessionService_create. simpl.
  assert (heap st !! fresh (dom (heap st)) = None) as Hf
    by apply not_elem_of_dom, is_fresh.
  destruct (decide (sid' = sid)) as [->|Hne].
  - rewrite lookup_insert_eq. intros [= <-].
    rewrite lookup_insert_eq. intros [= <-]. apply Hnew.
  - rewrite lookup_insert_ne by done. intros Hl.
    destruct (indexed_session st Hi sid' l Hl) as (s' & Hs' & _).
    rewrite lookup_insert_ne by congruence. eauto.
Qed.

Lemma registered_all_alter st st' f l :
  (∀ s, P s → P (f s)) →
  sessions st' = sessions st → heap st' = alter f l (heap st) →
  registered_all P st → registered_all P st'.
Proof.
  intros Hf Hs Hh H sid' l' s. rewrite Hs, Hh. intros Hl.
  destruct (decide (l' = l)) as [->|Hne].
  - rewrite lookup_alter_eq.
    destruct (heap st !! l) as [s0|] eqn:Hs0; simpl; [|done].
    intros [= <-]. eauto.
  - rewrite lookup_alter_ne by done. eauto.
Qed.

Lemma registered_all_bind st sid uid cb :
  (∀ s, P s → P (Session.set_uid (Some uid) s)) →
  registered_all P st → registered_all P (SessionService_bind sid uid cb st).
Proof.
  intros Hf H.
  destruct (SessionService_bind_effect st sid uid cb)
    as [(_ & Hs & _ & Hh & _)|(l & s & _ & _ & _ & Hs & _ & _ & Hh)].
  - by eapply registered_all_ext.
  - by eapply registered_all_alter.
Qed.

Lemma registered_all_unbind st sid uid cb :
  (∀ s, P s → P (Session.set_uid None s)) →
  registered_all P st → registered_all P (SessionService_unbind sid uid cb st).
Proof.
  intros Hf H.
  destruct (SessionService_unbind_effect st sid uid cb)
    as [(_ & Hs & _ & Hh & _)|(l & s & _ & _ & _ & Hs & _ & Hh & _)].
  - by eapply registered_all_ext.
  - by eapply registered_all_alter.
Qed.

Lemma registered_all_closed st this reason :
  indexed st → registered_all P st →
  registered_all P (Session_closed this reason st).
Proof.
  intros Hi H. destruct (heap st !! this) as [session|] eqn:Hs.
  2:{ unfold Session_closed. by rewrite Hs. }
  destruct (decide (Session.__state__ session = ST_CLOSED)) as [Hc|Ho].
  { rewrite Session_closed_closed; [done|]. by exists session. }
  destruct (Session_closed_open this session reason st Hs Ho)
    as (Hh & Hse & _).
  set (closed := Session.set_state ST_CLOSED session) in *.
  set (st1 := set_heap (insert this closed) st) in *.
  assert (indexed st1) as Hi1 by by eapply indexed_update.
  intros sid l s. rewrite Hh, Hse. intros Hl.
  pose proof (SessionService_remove_subset _ _ _ _ Hl) as Hl1.
  destruct (decide (l = this)) as [->|Hne].
  - exfalso.
    assert (heap st1 !! this = Some closed) as Hs1
      by apply lookup_insert_eq.
    pose proof (registered_id st1 Hi1 sid this closed Hl1 Hs1) as Hid.
    simpl in Hid. subst sid.
    rewrite (SessionService_remove_sessions _ st1 this closed) in Hl.
    + simpl in Hl. by rewrite lookup_delete_eq in Hl.
    + by apply lookup_session_Some.
  - rewrite lookup_insert_ne by done. intros Hs'. by eapply (H sid l s).
Qed.
End RegisteredAll.

Lemma indexed_closed st this reason :
  indexed st → indexed (Session_closed this reason st).
Proof.
  intros Hi. destruct (heap st !! this) as [session|] eqn:Hs.
  2:{ unfold Session_closed. by rewrite Hs. }
  destruct (decide (Session.__state__ session = ST_CLOSED)) as [Hc|Ho].
  { rewrite Session_closed_closed; [done|]. by exists session. }
  destruct (Session_closed_open this session reason st Hs Ho)
    as (Hh & Hse & Hu & _).
  set (closed := Session.set_state ST_CLOSED session) in *.
  set (st1 := set_heap (insert this closed) st) in *.
  assert (indexed st1) as Hi1 by by eapply indexed_update.
  apply (indexed_ext (SessionService_remove (Session.id session) st1));
    [done..| |by apply indexed_remove].
  by destruct (SessionService_remove_frame (Session.id session) st1) as (-> & _).
Qed.

Lemma indexed_bind st sid uid cb :
  indexed st → nonzero_uids st → indexed (SessionService_bind sid uid cb st).
Proof.
  intros Hi Hnz.
  destruct (SessionService_bind_effect st sid uid cb)
    as [(_ & Hs & Hu & Hh & _)|(l & s & Hls & Ht & _ & Hs & _ & Hu & Hh)].
  { by eapply indexed_ext. }
  apply lookup_session_Some in Hls as [Hl Hsl].
  assert (Session.uid s = None) as Hnone.
  { specialize (Hnz sid l s Hl Hsl). simpl in Hnz.
    destruct (Session.uid s) as [u|]; [|done].
    simpl in Ht. apply negb_false_iff, Z.eqb_eq in Ht. congruence. }
  apply (indexed_ext
           (set_heap (alter (Session.set_uid (Some uid)) l)
              (set_uidMap (insert uid (default [] (uidMap st !! uid) ++ [l]))
                 st))); [done..|].
  by apply (indexed_index st sid uid l s).
Qed.

Lemma indexed_unbind st sid uid cb :
  indexed st → indexed (SessionService_unbind sid uid cb st).
Proof.
  intros Hi.
  destruct (SessionService_unbind_effect st sid uid cb)
    as [(_ & Hs & Hu & Hh & _)|(l & s & Hls & Huid & _ & Hs & _ & Hh & Hu)].
  { by eapply indexed_ext. }
  rewrite (unbind_unindex st sid uid l s Hi Hls Huid) in Hu.
  apply lookup_session_Some in Hls as [Hl Hsl].
  apply (indexed_ext
           (set_heap (alter (Session.set_uid None) l)
              (set_uidMap (unindex uid l) st))); [done..|].
  by apply (indexed_unindex st Hi sid l s).
Qed.

(** In an indexed registry a successful [unbind] takes the session, and
    nothing else, out of the bucket of its uid. *)
Lemma SessionService_unbind_removes st sid uid cb l s :
  indexed st → lookup_session st sid = Some (l, s) →
  Session.uid s = Some uid → uid ≠ 0%Z →
  let st' := SessionService_unbind sid uid cb st in
  uidMap st' = unindex uid l (uidMap st)
  ∧ (∀ b', uidMap st' !! uid = Some b' → (l ∉ b') ∧ (b' ≠ []))
  ∧ (∀ u', u' ≠ uid → uidMap st' !! u' = uidMap st !! u')
  ∧ (Session.uid <$> heap st' !! l) = Some None.
Proof.
  intros Hi Hls Hu H0. simpl.
  destruct (SessionService_unbind_bound st sid uid cb l s Hls Hu H0)
    as (_ & _ & _ & Hh & _ & Hm).
  pose proof (unbind_unindex st sid uid l s Hi Hls Hu) as Hun.
  simpl in Hm, Hun. rewrite Hun in Hm.
  pose proof Hls as [Hl Hs]%lookup_session_Some.
  destruct (registered_bucket st Hi sid l s Hl Hs uid Hu) as (b & Hb & _).
  destruct (indexed_bucket st Hi uid b Hb) as (Hnd & _).
  rewrite Hm, Hh. split; [done|]. split; [|split].
  - intros b' Hb'.
    destruct (unindex_lookup_eq uid l _ b b' Hb Hnd Hb') as (? & _ & Hel).
    split; [|done]. intros Hin. apply Hel in Hin. by destruct Hin.
  - intros u' Hne. by apply unindex_lookup_ne.
  - by rewrite lookup_alter_eq, Hs.
Qed.

Lemma SessionService_import_frame sid key value cb st :
  sessions (SessionService_import sid key value cb st) = sessions st
  ∧ uidMap (SessionService_import sid key value cb st) = uidMap st
  ∧ heap (SessionService_import sid key value cb st) = heap st.
Proof.
  unfold SessionService_import.
  destruct (lookup_session st sid) as [[l s]|].
  - destruct (invokeCallback_frame cb None (Session_set key value s st))
      as (-> & -> & -> & _). by destruct key.
  - by destruct (invokeCallback_frame cb (Some (SessionNotFound sid)) st)
      as (-> & -> & -> & _).
Qed.

Lemma SessionService_importAll_frame sid settings cb st :
  sessions (SessionService_importAll sid settings cb st) = sessions st
  ∧ uidMap (SessionService_importAll sid settings cb st) = uidMap st
  ∧ heap (SessionService_importAll sid settings cb st) = heap st.
Proof.
  unfold SessionService_importAll.
  destruct (lookup_session st sid) as [[l s]|].
  - by destruct (invokeCallback_frame cb None
        (set_objects (alter (λ o, default ∅ (objects st !! settings) ∪ o)
                        (Session.settings s)) st)) as (-> & -> & -> & _).
  - by destruct (invokeCallback_frame cb (Some (SessionNotFound sid)) st)
      as (-> & -> & -> & _).
Qed.

Lemma indexed_close_each sids reason st :
  indexed st → indexed (state_of (close_each sids reason st)).
Proof.
  revert st. induction sids as [|sid sids IH]; intros st Hi; [done|].
  simpl. destruct (sessions st !! sid) as [l|]; [|done].
  by apply IH, indexed_closed.
Qed.

Lemma registered_all_close_each P sids reason st :
  indexed st → registered_all P st →
  registered_all P (state_of (close_each sids reason st)).
Proof.
  revert st. induction sids as [|sid sids IH]; intros st Hi H; [done|].
  simpl. destruct (sessions st !! sid) as [l|]; [|done].
  apply IH; [by apply indexed_closed|by apply registered_all_closed].
Qed.

Lemma SessionService_kick_state uid reason cb st :
  ∃ sids reason',
    let st' := state_of (close_each sids reason' st) in
    let st'' := state_of (SessionService_kick uid reason cb st) in
    sessions st'' = sessions st' ∧ uidMap st'' = uidMap st'
    ∧ heap st'' = heap st'.
Proof.
  unfold SessionService_kick, SessionService_getByUid.
  destruct (is_function reason).
  - destruct (uidMap st !! uid) as [b|].
    + exists (ids_of st b), (VStr "kick").
      by destruct (close_each _ _ _).
    + by exists [], (VStr "kick").
  - destruct (uidMap st !! uid) as [b|].
    + exists (ids_of st b), reason. by destruct (close_each _ _ _).
    + by exists [], reason.
Qed.

(** ** Reachable states *)

Lemma maintained_new single : maintained (SessionService_new single).
Proof.
  split; [split|split]; simpl; try done.
Qed.

Lemma maintained_ext st st' :
  sessions st' = sessions st → uidMap st' = uidMap st → heap st' = heap st →
  maintained st → maintained st'.
Proof.
  intros Hs Hu Hh (Hi & Ho & Hz). split; [by eapply indexed_ext|split].
  - by apply (registered_all_ext (λ s, Session.__state__ s ≠ ST_CLOSED) st).
  - by apply (registered_all_ext (λ s, Session.uid s ≠ Some 0%Z) st).
Qed.

Lemma maintained_closed st this reason :
  maintained st → maintained (Session_closed this reason st).
Proof.
  intros (Hi & Ho & Hz). split; [by apply indexed_closed|split].
  - by apply (registered_all_closed (λ s, Session.__state__ s ≠ ST_CLOSED)).
  - by apply (registered_all_closed (λ s, Session.uid s ≠ Some 0%Z)).
Qed.

Lemma maintained_exec op st :
  maintained st → disciplined st op → maintained (exec op st).
Proof.
  intros (Hi & Ho & Hz) Hd. destruct op; simpl in *.
  - split; [by apply indexed_create|split].
    + apply (registered_all_create _ st); [|done..]. done.
    + apply (registered_all_create _ st); [|done..]. done.
  - split; [by apply indexed_bind|split].
    + by apply (registered_all_bind (λ s, Session.__state__ s ≠ ST_CLOSED)).
    + apply (registered_all_bind (λ s, Session.uid s ≠ Some 0%Z)); [|done].
      simpl. congruence.
  - split; [by apply indexed_unbind|split].
    + by apply (registered_all_unbind (λ s, Session.__state__ s ≠ ST_CLOSED)).
    + by apply (registered_all_unbind (λ s, Session.uid s ≠ Some 0%Z)).
  - split; [by apply indexed_remove|split].
    + by apply (registered_all_remove (λ s, Session.__state__ s ≠ ST_CLOSED)).
    + by apply (registered_all_remove (λ s, Session.uid s ≠ Some 0%Z)).
  - destruct (SessionService_import_frame sid key value cb st) as (Hs & Hu & Hh).
    by apply (maintained_ext st).
  - destruct (SessionService_importAll_frame sid settings cb st)
      as (Hs & Hu & Hh).
    by apply (maintained_ext st).
  - destruct (SessionService_kick_state uid reason cb st)
      as (sids & reason' & Hs & Hu & Hh). simpl in *.
    apply (maintained_ext (state_of (close_each sids reason' st))); [done..|].
    split; [by apply indexed_close_each|split].
    + by apply (registered_all_close_each (λ s, Session.__state__ s ≠ ST_CLOSED)).
    + by apply (registered_all_close_each (λ s, Session.uid s ≠ Some 0%Z)).
  - unfold SessionService_kickBySessionId, SessionService_get.
    assert (∀ r c, maintained match sessions st !! sid with
                   | Some l => nextTick (TInvokeCallback c None)
                                 (Session_closed l r st)
                   | None => nextTick (TInvokeCallback c None) st
                   end) as H.
    { intros r c. destruct (sessions st !! sid) as [l|].
      - apply (maintained_ext (Session_closed l r st)); [done..|].
        by apply maintained_closed.
      - by apply (maintained_ext st). }
    destruct (is_function reason); apply H.
  - by apply maintained_closed.
Qed.

Lemma reachable_maintained st : reachable disciplined st → maintained st.
Proof.
  induction 1 as [single|st op _ IH Hd];
    [apply maintained_new|by apply maintained_exec].
Qed.




(** ** kick *)

Lemma ids_of_ext st st' (b : list loc) :
  (∀ x, x ∈ b → heap st' !! x = heap st !! x) → ids_of st' b = ids_of st b.
Proof.
  induction b as [|x b IH]; intros H; [done|]. simpl.
  rewrite (H x) by apply list_elem_of_here.
  rewrite IH; [done|]. intros y Hy. by apply H, list_elem_of_further.
Qed.

Lemma closed_at_closed st this reason l :
  closed_at st l → closed_at (Session_closed this reason st) l.
Proof.
  intros Hc. destruct (heap st !! this) as [session|] eqn:Hs.
  2:{ unfold Session_closed. by rewrite Hs. }
  destruct (decide (l = this)) as [->|Hne]; [by eapply Session_closed_closes|].
  destruct (decide (Session.__state__ session = ST_CLOSED)) as [Hcl|Ho].
  { rewrite Session_closed_closed; [done|]. by exists session. }
  destruct (Session_closed_open this session reason st Hs Ho) as (Hh & _).
  destruct Hc as (s & Hl & Hst). exists s. rewrite Hh.
  by rewrite lookup_insert_ne.
Qed.

(** Closing the sessions of a bucket, front to back. *)
Lemma close_each_bucket reason uid bucket :
  ∀ st, indexed st → all_open st → uidMap st !! uid = Some bucket →
  ∃ st' evs,
    close_each (ids_of st bucket) reason st = Returned st'
    ∧ indexed st' ∧ all_open st'
    ∧ uidMap st' = delete uid (uidMap st)
    ∧ (∀ sid, sessions st' !! sid =
              if decide (sid ∈ ids_of st bucket) then None
              else sessions st !! sid)
    ∧ size (sessions st') + length bucket = size (sessions st)
    ∧ (∀ l, closed_at st l ∨ l ∈ bucket → closed_at st' l)
    ∧ log st' = log st ++ evs
    ∧ (∀ f e, Invoke f e ∉ evs)
    ∧ (∀ l, l ∈ bucket → ∃ fs, SessionEmit l (NClosed fs reason) ∈ evs).
Proof.
  induction bucket as [|l rest IH]; intros st Hi Ho Hb.
  { by destruct (indexed_bucket st Hi uid [] Hb) as (_ & ? & _). }
  destruct (indexed_bucket st Hi uid _ Hb) as (Hnd & _ & Hel).
  destruct (Hel l) as (s & Hs & Hu & Hl); [set_solver|].
  pose proof (Ho _ _ _ Hl Hs) as Hopen.
  apply NoDup_cons in Hnd as [Hlrest Hnd].
  (* the first session is closed *)
  set (st1 := Session_closed l reason st).
  destruct (Session_closed_open l s reason st Hs Hopen)
    as (Hh1 & Hse1 & Hu1 & _ & Hlog1). fold st1 in Hh1, Hse1, Hu1, Hlog1.
  set (closed := Session.set_state ST_CLOSED s) in *.
  set (st0 := set_heap (insert l closed) st) in *.
  assert (indexed st0) as Hi0 by by eapply indexed_update.
  assert (lookup_session st0 (Session.id s) = Some (l, closed)) as Hls0.
  { apply lookup_session_Some. split; [done|]. apply lookup_insert_eq. }
  rewrite (SessionService_remove_indexed st0 _ l closed Hi0 Hls0) in Hse1, Hu1.
  simpl in Hse1, Hu1. rewrite Hu in Hse1, Hu1. simpl in Hse1, Hu1.
  rewrite (unindex_lookup_head uid l (uidMap st) rest Hb) in Hu1.
  assert (indexed st1) as Hi1 by by apply indexed_closed.
  assert (all_open st1) as Ho1
    by by apply (registered_all_closed (λ s, Session.__state__ s ≠ ST_CLOSED)).
  assert (ids_of st (l :: rest) = Session.id s :: ids_of st1 rest) as Hids.
  { simpl. rewrite Hs. f_equal.
    symmetry. apply ids_of_ext. intros x Hx. rewrite Hh1.
    apply lookup_insert_ne. intros ->. done. }
  rewrite Hids. simpl. rewrite Hl. fold st1.
  assert (size (sessions st1) + 1 = size (sessions st)) as Hsize1.
  { rewrite Hse1, map_size_delete, Hl. simpl.
    assert (size (sessions st) ≠ 0); [|lia].
    intros E. apply map_size_empty_inv in E. rewrite E in Hl.
    by rewrite lookup_empty in Hl. }
  assert (closed_at st1 l) as Hcl1 by by eapply Session_closed_closes.
  destruct (decide (rest = [])) as [->|Hrest].
  - (* it was the last one *)
    rewrite bool_decide_eq_true_2 in Hu1 by done.
    eexists st1, _. simpl. split; [done|]. do 3 (split; [done|]).
    split.
    { intros sid. rewrite Hse1. destruct (decide (sid = Session.id s)) as [->|Hne].
      - rewrite lookup_delete_eq. rewrite decide_True; [done|set_solver].
      - rewrite lookup_delete_ne by done.
        rewrite decide_False; [done|set_solver]. }
    split; [lia|]. split.
    { intros x [Hx|Hx]; [by apply closed_at_closed|].
      apply list_elem_of_singleton in Hx as ->. done. }
    split; [done|]. split.
    { intros f e Hin. set_unfold. naive_solver. }
    intros x Hx. apply list_elem_of_singleton in Hx as ->.
    eexists. apply list_elem_of_here.
  - (* the rest of the bucket is what is left in the index *)
    rewrite bool_decide_eq_false_2 in Hu1 by done.
    assert (uidMap st1 !! uid = Some rest) as Hb1
      by (rewrite Hu1; apply lookup_insert_eq).
    destruct (IH st1 Hi1 Ho1 Hb1)
      as (st' & evs & Hrun & Hi' & Ho' & Hu' & Hse' & Hsize' & Hcl' & Hlog'
          & Hdef & Hem).
    exists st', ([SessionEmit l (NClosed (FrontendSession_new l closed
                   (SessionService_remove (Session.id s) st0)).1 reason);
                  SocketEmit (Session.__socket__ s) "closing" reason;
                  NextTick (TDisconnect (Session.__socket__ s))] ++ evs).
    split; [done|]. do 2 (split; [done|]).
    split. { rewrite Hu', Hu1. apply delete_insert_eq. }
    split.
    { intros sid. rewrite Hse', Hse1.
      destruct (decide (sid = Session.id s)) as [->|Hne].
      - rewrite lookup_delete_eq.
        rewrite (decide_True (P := _ ∈ _ :: _)) by set_solver.
        by destruct (decide _).
      - rewrite lookup_delete_ne by done.
        destruct (decide (sid ∈ ids_of st1 rest)).
        + rewrite decide_True; [done|set_solver].
        + rewrite decide_False; [done|set_solver]. }
    split; [simpl; lia|]. split.
    { intros x [Hx|Hx].
      - apply Hcl'. left. by apply closed_at_closed.
      - apply elem_of_cons in Hx as [->|Hx]; apply Hcl'; [by left|by right]. }
    split. { rewrite Hlog', Hlog1. by rewrite <- app_assoc. }
    split.
    { intros f e Hin. apply elem_of_app in Hin as [Hin|Hin].
      - set_unfold. naive_solver.
      - by apply (Hdef f e). }
    intros x Hx. apply elem_of_cons in Hx as [->|Hx].
    + eexists. apply elem_of_app. left. apply list_elem_of_here.
    + destruct (Hem x Hx) as (fs & Hfs). exists fs.
      apply elem_of_app. by right.
Qed.


Lemma quiet_nil : quiet [].
Proof. by intros e ?%elem_of_nil. Qed.

Lemma quiet_app evs1 evs2 : quiet evs1 → quiet evs2 → quiet (evs1 ++ evs2).
Proof. intros H1 H2 e [?|?]%elem_of_app; [by apply H1|by apply H2]. Qed.

(** A closure calls no callback and schedules none. *)
Lemma Session_closed_quiet this reason st :
  ∃ evs, log (Session_closed this reason st) = log st ++ evs ∧ quiet evs.
Proof.
  destruct (heap st !! this) as [session|] eqn:Hs.
  2:{ exists []. unfold Session_closed. rewrite Hs, app_nil_r.
      split; [done|apply quiet_nil]. }
  destruct (decide (Session.__state__ session = ST_CLOSED)) as [Hc|Hopen].
  { exists []. rewrite Session_closed_closed by by exists session.
    rewrite app_nil_r. split; [done|apply quiet_nil]. }
  destruct (Session_closed_open this session reason st Hs Hopen)
    as (_ & _ & _ & _ & Hlog).
  eexists. split; [exact Hlog|]. intros e Hin.
  repeat (apply elem_of_cons in Hin as [->|Hin]; [done|]).
  by apply elem_of_nil in Hin.
Qed.

Lemma close_each_quiet sids reason st :
  ∃ evs, log (state_of (close_each sids reason st)) = log st ++ evs
         ∧ quiet evs.
Proof.
  revert st. induction sids as [|sid sids IH]; intros st; simpl.
  { exists []. rewrite app_nil_r. split; [done|apply quiet_nil]. }
  destruct (sessions st !! sid) as [l|].
  2:{ exists []. rewrite app_nil_r. split; [done|apply quiet_nil]. }
  destruct (Session_closed_quiet l reason st) as (evs1 & Hl1 & Hn1).
  destruct (IH (Session_closed l reason st)) as (evs2 & Hl2 & Hn2).
  exists (evs1 ++ evs2). rewrite Hl2, Hl1, app_assoc. split; [done|].
  by apply quiet_app.
Qed.




Lemma shared_uid_state_reachable : reachable disciplined shared_uid_state.
Proof.
  unfold shared_uid_state.
  repeat (apply reachable_exec; [|first [reflexivity|discriminate]]).
  apply reachable_new.
Qed.

Lemma shared_uid_state_maintained : maintained shared_uid_state.
Proof. apply reachable_maintained, shared_uid_state_reachable. Qed.


(** ** CLOSED is terminal *)

Lemma closed_at_ext st st' l :
  heap st' = heap st → closed_at st l → closed_at st' l.
Proof. intros Hh. unfold closed_at. by rewrite Hh. Qed.







(** * Further properties of the code *)

(** ** create *)

(** [create] allocates a new session, open, without uid and with empty
    settings, and registers it under [sid]; every other entry, the index
    and the log stay.  The count of sessions goes up by one, unless [sid]
    was in the table: the entry is then overwritten and the count stays. *)
Theorem SessionService_create_registers (sid : Z) (frontendId : string)
    (socket : Socket) (st : State) :
  let l := (SessionService_create sid frontendId socket st).1 in
  let st' := (SessionService_create sid frontendId socket st).2 in
  heap st !! l = None
  ∧ SessionService_get sid st' = Some l
  ∧ (∃ o, objects st !! o = None ∧ objects st' !! o = Some ∅
          ∧ heap st' !! l
            = Some (Session.mk sid frontendId None o socket ST_INITED))
  ∧ (∀ sid', sid' ≠ sid →
       SessionService_get sid' st' = SessionService_get sid' st)
  ∧ (∀ l', l' ≠ l → heap st' !! l' = heap st !! l')
  ∧ uidMap st' = uidMap st
  ∧ log st' = log st
  ∧ SessionService_getSessionsCount st'
    = match sessions st !! sid with
      | Some _ => SessionService_getSessionsCount st
      | None => S (SessionService_getSessionsCount st)
      end.
Proof.
  unfold SessionService_create, SessionService_get,
    SessionService_getSessionsCount. simpl.
  split; [apply not_elem_of_dom, is_fresh|].
  split; [apply lookup_insert_eq|]. split.
  { exists (fresh (dom (objects st))).
    split; [apply not_elem_of_dom, is_fresh|].
    split; apply lookup_insert_eq. }
  split; [intros sid' Hne; by apply lookup_insert_ne|].
  split; [intros l' Hne; by apply lookup_insert_ne|].
  do 2 (split; [done|]).
  rewrite map_size_insert. by destruct (sessions st !! sid).
Qed.

(** ** An unregistered sid *)

(** With a sid that is not in the table: [bind] and [unbind] schedule the
    callback with the SessionNotFound error, [import] and [importAll] call
    it with that error at once, [kickBySessionId] only schedules its
    callback, [remove] does nothing, [sendMessage] sends nothing and
    returns false, [getClientAddressBySessionId] returns null.  None of
    them changes the registry. *)
Theorem unregistered_sid (sid : Z) (st : State) :
  sessions st !! sid = None →
  (∀ uid cb, SessionService_bind sid uid cb st
             = nextTick (TCall cb (Some (SessionNotFound sid))) st)
  ∧ (∀ uid cb, SessionService_unbind sid uid cb st
               = nextTick (TCall cb (Some (SessionNotFound sid))) st)
  ∧ (∀ key value f, SessionService_import sid key value (VFun f) st
                    = record (Invoke f (Some (SessionNotFound sid))) st)
  ∧ (∀ settings f, SessionService_importAll sid settings (VFun f) st
                   = record (Invoke f (Some (SessionNotFound sid))) st)
  ∧ (∀ reason cb, is_function reason = false →
       SessionService_kickBySessionId sid reason cb st
       = nextTick (TInvokeCallback cb None) st)
  ∧ SessionService_remove sid st = st
  ∧ (∀ msg, SessionService_sendMessage sid msg st = (VBool false, []))
  ∧ (∀ remoteAddress,
       SessionService_getClientAddressBySessionId remoteAddress sid st = VNull).
Proof.
  intros Hnone.
  assert (lookup_session st sid = None) as Hl
    by (unfold lookup_session; by rewrite Hnone).
  unfold SessionService_bind, SessionService_unbind, SessionService_import,
    SessionService_importAll, SessionService_kickBySessionId,
    SessionService_get, SessionService_remove, SessionService_sendMessage,
    SessionService_getClientAddressBySessionId.
  rewrite Hl, Hnone. repeat split. intros reason cb ->. done.
Qed.

Lemma unregistered_sid_witness :
  SessionService_bind 7 42 5 bound_state
  = nextTick (TCall 5 (Some (SessionNotFound 7))) bound_state.
Proof.
  destruct (unregistered_sid 7 bound_state) as (H & _); [reflexivity|].
  apply H.
Defined.

(** ** remove *)

(** In an indexed registry [remove(sid)] of a registered session takes it
    out of the table and out of its bucket: [get(sid)] finds nothing, the
    count goes down by one, no bucket holds the session, the buckets of
    other uids and all other entries stay, the store and the log are not
    touched, and the registry is indexed again. *)
Theorem SessionService_remove_deregisters (sid : Z) (l : loc) (s : Session)
    (st : State) :
  indexed st → sessions st !! sid = Some l → heap st !! l = Some s →
  let st' := SessionService_remove sid st in
  SessionService_get sid st' = None
  ∧ (∀ sid', sid' ≠ sid →
       SessionService_get sid' st' = SessionService_get sid' st)
  ∧ S (SessionService_getSessionsCount st') = SessionService_getSessionsCount st
  ∧ (∀ u b, uidMap st' !! u = Some b → l ∉ b)
  ∧ (∀ u, Session.uid s ≠ Some u → uidMap st' !! u = uidMap st !! u)
  ∧ heap st' = heap st ∧ objects st' = objects st ∧ log st' = log st
  ∧ indexed st'.
Proof.
  intros Hi Hl Hs st'.
  assert (lookup_session st sid = Some (l, s)) as Hls
    by by apply lookup_session_Some.
  pose proof (registered_id st Hi sid l s Hl Hs) as Hid.
  pose proof (indexed_remove st sid Hi) as Hi'. fold st' in Hi'.
  destruct (SessionService_remove_frame sid st) as (Hh & Ho & Hlog & _).
  fold st' in Hh, Ho, Hlog.
  assert (sessions st' = delete sid (sessions st)) as Hse.
  { unfold st'. rewrite (SessionService_remove_sessions sid st l s Hls).
    by rewrite Hid. }
  unfold SessionService_get, SessionService_getSessionsCount.
  split; [rewrite Hse; apply lookup_delete_eq|].
  split; [intros sid' Hne; rewrite Hse; by apply lookup_delete_ne|].
  split.
  { rewrite Hse, map_size_delete, Hl.
    assert (size (sessions st) ≠ 0); [|simpl; lia].
    intros E. apply map_size_empty_inv in E. rewrite E in Hl.
    by rewrite lookup_empty in Hl. }
  split.
  { intros u b Hb Hin.
    destruct (indexed_bucket st' Hi' u b Hb) as (_ & _ & Hel).
    destruct (Hel l Hin) as (s' & Hs' & _ & Hreg).
    rewrite Hh in Hs'. assert (s' = s) as -> by congruence.
    rewrite Hid, Hse, lookup_delete_eq in Hreg. done. }
  split; [|done].
  intros u Hu. unfold st'.
  rewrite (SessionService_remove_indexed st sid l s Hi Hls).
  destruct (Session.uid s) as [u0|]; [|done]. simpl.
  apply unindex_lookup_ne. congruence.
Qed.

Lemma SessionService_remove_deregisters_witness :
  SessionService_get 1 (SessionService_remove 1 bound_state) = None
  ∧ uidMap (SessionService_remove 1 bound_state) = ∅.
Proof.
  assert (indexed bound_state) as Hi.
  { apply reachable_maintained. unfold bound_state.
    repeat (apply reachable_exec; [|first [reflexivity|discriminate]]).
    apply reachable_new. }
  destruct (SessionService_remove_deregisters 1 0
              (Session.mk 1 "connector-1" (Some 42%Z) 0 9 ST_INITED)
              bound_state Hi eq_refl eq_refl) as (H & _).
  split; [exact H|]. vm_compute. reflexivity.
Defined.

(** ** bind, then bind or unbind *)

Lemma splice_first_app_last (l : loc) (b : list loc) :
  l ∉ b → splice_first (λ y, bool_decide (y = l)) (b ++ [l]) = b.
Proof.
  induction b as [|x b IH]; intros Hl; simpl.
  - by rewrite bool_decide_eq_true_2.
  - rewrite bool_decide_eq_false_2 by set_solver. f_equal. apply IH. set_solver.
Qed.

Section BindUnbound.
Variables (st : State) (sid uid : Z) (l : loc) (s : Session).
Hypothesis Hi : indexed st.
Hypothesis Hls : lookup_session st sid = Some (l, s).
Hypothesis Hu : Session.uid s = None.
Hypothesis Hsingle : singleSession st = true → uidMap st !! uid = None.

Let bucket := default [] (uidMap st !! uid).

(** The success path of [bind] is the one taken. *)
Lemma SessionService_bind_unbound cb :
  SessionService_bind sid uid cb st
  = nextTick (TCall cb None)
      (Session_bind l uid (set_uidMap (insert uid (bucket ++ [l])) st)).
Proof.
  pose proof Hls as [Hl Hs]%lookup_session_Some.
  unfold SessionService_bind. rewrite Hls, Hu. simpl.
  replace (singleSession st && bool_decide (is_Some (uidMap st !! uid)))
    with false.
  2:{ destruct (singleSession st); [|done].
      by rewrite (Hsingle eq_refl). }
  fold bucket.
  destruct (existsb (has_id st (Session.id s)) bucket) eqn:E; [|done].
  exfalso. apply existsb_exists in E as (x & Hx & Hid).
  apply list_elem_of_In in Hx.
  destruct (bucket_old st uid l s Hi Hs Hu x Hx) as [Hb Hne].
  rewrite (registered_id st Hi sid l s Hl Hs) in Hid.
  rewrite (has_id_registered st uid bucket sid l x Hi Hl Hb Hx) in Hid.
  by apply bool_decide_eq_true in Hid.
Qed.

Lemma indexed_bind_unbound cb : indexed (SessionService_bind sid uid cb st).
Proof.
  pose proof Hls as [Hl Hs]%lookup_session_Some.
  rewrite SessionService_bind_unbound.
  apply (indexed_ext
           (set_heap (alter (Session.set_uid (Some uid)) l)
              (set_uidMap (insert uid (bucket ++ [l])) st))); [done..|].
  by apply (indexed_index st sid uid l s).
Qed.

Lemma lookup_session_bind_unbound cb :
  lookup_session (SessionService_bind sid uid cb st) sid
  = Some (l, Session.set_uid (Some uid) s).
Proof.
  pose proof Hls as [Hl Hs]%lookup_session_Some.
  rewrite SessionService_bind_unbound. apply lookup_session_Some. simpl.
  split; [done|]. by rewrite lookup_alter_eq, Hs.
Qed.
End BindUnbound.

(** After a successful [bind] of an unbound session to a uid other than 0,
    in an indexed registry: the session has the uid and is in its bucket;
    binding it again to the same uid is a no-op whose callback runs in the
    call; binding it to another uid is refused with AlreadyBound; the
    registry is indexed again. *)
Theorem bind_then_bind (st : State) (sid uid : Z) (cb : Callback) (l : loc)
    (s : Session) :
  indexed st → lookup_session st sid = Some (l, s) →
  Session.uid s = None → uid ≠ 0%Z →
  (singleSession st = true → uidMap st !! uid = None) →
  let st1 := SessionService_bind sid uid cb st in
  lookup_session st1 sid = Some (l, Session.set_uid (Some uid) s)
  ∧ (∃ b, SessionService_getByUid uid st1 = Some b ∧ l ∈ b)
  ∧ (∀ cb', SessionService_bind sid uid cb' st1 = record (Invoke cb' None) st1)
  ∧ (∀ v cb', v ≠ uid →
       SessionService_bind sid v cb' st1
       = nextTick (TCall cb' (Some (AlreadyBound (Some uid)))) st1)
  ∧ indexed st1.
Proof.
  intros Hi Hls Hu H0 Hsingle st1.
  pose proof (lookup_session_bind_unbound st sid uid l s Hi Hls Hu Hsingle cb)
    as Hls1. fold st1 in Hls1.
  split; [done|]. split.
  { unfold st1, SessionService_getByUid.
    rewrite (SessionService_bind_unbound st sid uid l s Hi Hls Hu Hsingle).
    simpl. rewrite lookup_insert_eq. eexists. split; [done|]. set_solver. }
  split.
  { intros cb'. by apply (SessionService_bind_same_uid st1 sid uid cb' l
                            (Session.set_uid (Some uid) s)). }
  split; [|by apply (indexed_bind_unbound st sid uid l s)].
  intros v cb' Hne. unfold SessionService_bind. rewrite Hls1. simpl.
  apply Z.eqb_neq in H0. rewrite H0. simpl.
  rewrite bool_decide_eq_false_2; [done|]. congruence.
Qed.

Lemma bind_then_bind_witness :
  SessionService_bind 1 43 5 bound_state
  = nextTick (TCall 5 (Some (AlreadyBound (Some 42%Z)))) bound_state.
Proof.
  assert (indexed open_state) as Hi.
  { apply reachable_maintained. unfold open_state.
    apply (reachable_exec _ _ (Create 1 "connector-1" 9));
      [apply reachable_new|reflexivity]. }
  destruct (bind_then_bind open_state 1 42 0 0
              (Session.mk 1 "connector-1" None 0 9 ST_INITED)
              Hi eq_refl eq_refl) as (_ & _ & _ & H & _);
    [discriminate|done|].
  apply (H 43%Z 5). discriminate.
Defined.

(** [unbind] undoes [bind]: after a successful [bind] of an unbound
    session (uid other than 0, indexed registry) and the [unbind] of the
    same uid, the table, the index and the sessions are what they were;
    the log holds the two notifications and the two deferred callbacks. *)
Theorem bind_then_unbind (st : State) (sid uid : Z) (cb cb' : Callback)
    (l : loc) (s : Session) :
  indexed st → lookup_session st sid = Some (l, s) →
  Session.uid s = None → uid ≠ 0%Z →
  (singleSession st = true → uidMap st !! uid = None) →
  let st2 := SessionService_unbind sid uid cb'
               (SessionService_bind sid uid cb st) in
  sessions st2 = sessions st
  ∧ uidMap st2 = uidMap st
  ∧ heap st2 = heap st
  ∧ objects st2 = objects st
  ∧ singleSession st2 = singleSession st
  ∧ log st2 = log st ++ [SessionEmit l (NBind uid); NextTick (TCall cb None);
                         SessionEmit l (NUnbind uid); NextTick (TCall cb' None)].
Proof.
  intros Hi Hls Hu H0 Hsingle st2.
  pose proof Hls as [Hl Hs]%lookup_session_Some.
  set (st1 := SessionService_bind sid uid cb st) in *.
  pose proof (lookup_session_bind_unbound st sid uid l s Hi Hls Hu Hsingle cb)
    as Hls1. fold st1 in Hls1.
  pose proof (indexed_bind_unbound st sid uid l s Hi Hls Hu Hsingle cb)
    as Hi1. fold st1 in Hi1.
  pose proof (SessionService_bind_unbound st sid uid l s Hi Hls Hu Hsingle cb)
    as Hst1. fold st1 in Hst1.
  destruct (SessionService_unbind_bound st1 sid uid cb' l
              (Session.set_uid (Some uid) s) Hls1 eq_refl H0)
    as (Hse & Hsg & Ho & Hh & Hlog & _).
  destruct (SessionService_unbind_removes st1 sid uid cb' l
              (Session.set_uid (Some uid) s) Hi1 Hls1 eq_refl H0)
    as (Hm & _).
  fold st2 in Hse, Hsg, Ho, Hh, Hlog, Hm.
  rewrite Hse, Hm, Hh, Ho, Hsg, Hlog, Hst1. simpl.
  split; [done|]. split.
  { unfold unindex. rewrite lookup_insert_eq. simpl.
    assert (l ∉ default [] (uidMap st !! uid)) as Hnotin.
    { intros Hin. by destruct (bucket_old st uid l s Hi Hs Hu l Hin). }
    rewrite (splice_first_app_last l _ Hnotin).
    destruct (uidMap st !! uid) as [b|] eqn:Hb; simpl.
    - destruct (indexed_bucket st Hi uid b Hb) as (_ & Hne & _).
      destruct b as [|x b]; [done|]. simpl.
      rewrite insert_insert_eq. by apply insert_id.
    - rewrite delete_insert_eq. by apply delete_id. }
  split.
  { apply map_eq. intros x. destruct (decide (x = l)) as [->|Hne].
    - rewrite !lookup_alter_eq, Hs. simpl. f_equal.
      destruct s; simpl in *. by subst.
    - by rewrite !lookup_alter_ne. }
  do 2 (split; [done|]). by rewrite <- !app_assoc.
Qed.

Lemma bind_then_unbind_witness :
  uidMap (SessionService_unbind 1 42 5 bound_state) = uidMap open_state
  ∧ heap (SessionService_unbind 1 42 5 bound_state) = heap open_state.
Proof.
  assert (indexed open_state) as Hi.
  { apply reachable_maintained. unfold open_state.
    apply (reachable_exec _ _ (Create 1 "connector-1" 9));
      [apply reachable_new|reflexivity]. }
  destruct (bind_then_unbind open_state 1 42 0 5 0
              (Session.mk 1 "connector-1" None 0 9 ST_INITED)
              Hi eq_refl eq_refl) as (_ & Hm & Hh & _);
    [discriminate|done|].
  split; [exact Hm|exact Hh].
Defined.


(** ** Invariants of every reachable state *)

Lemma keeps_refl st : keeps st st.
Proof. split; [done|]. eauto. Qed.

Lemma keeps_heap_eq st st' :
  singleSession st' = singleSession st → heap st' = heap st → keeps st st'.
Proof. intros Hsg Hh. split; [done|]. rewrite Hh. eauto. Qed.

Lemma keeps_alter_uid st st' u x :
  singleSession st' = singleSession st →
  heap st' = alter (Session.set_uid u) x (heap st) → keeps st st'.
Proof.
  intros Hsg Hh. split; [done|]. intros l s Hs. rewrite Hh.
  destruct (decide (x = l)) as [->|Hne].
  - exists (Session.set_uid u s). by rewrite lookup_alter_eq, Hs.
  - exists s. by rewrite lookup_alter_ne.
Qed.

Lemma keeps_insert_state st st' this session x :
  singleSession st' = singleSession st →
  heap st !! this = Some session →
  heap st' = <[this := Session.set_state x session]> (heap st) →
  keeps st st'.
Proof.
  intros Hsg Hthis Hh. split; [done|]. intros l s Hs. rewrite Hh.
  destruct (decide (this = l)) as [->|Hne].
  - exists (Session.set_state x session). rewrite lookup_insert_eq.
    split; [done|]. simpl. congruence.
  - exists s. by rewrite lookup_insert_ne.
Qed.

Lemma has_id_keeps st st' x l :
  keeps st st' → is_Some (heap st !! l) → has_id st' x l = has_id st x l.
Proof.
  intros [_ Hk] [s Hs]. destruct (Hk l s Hs) as (s' & Hs' & Hid).
  unfold has_id. by rewrite Hs, Hs', Hid.
Qed.

Lemma ids_of_keeps st st' (b : list loc) :
  keeps st st' → (∀ l, l ∈ b → is_Some (heap st !! l)) →
  ids_of st' b = ids_of st b.
Proof.
  intros Hk. induction b as [|x b IH]; intros Hin; [done|]. simpl.
  destruct (Hin x) as [s Hs]; [apply list_elem_of_here|].
  destruct Hk as [_ Hk']. destruct (Hk' x s Hs) as (s' & Hs' & Hid).
  rewrite Hs, Hs', Hid. f_equal. apply IH.
  intros l Hl. by apply Hin, list_elem_of_further.
Qed.

Lemma ids_of_app st (b b' : list loc) :
  ids_of st (b ++ b') = ids_of st b ++ ids_of st b'.
Proof.
  induction b as [|x b IH]; [done|]. simpl.
  destruct (heap st !! x); simpl; by rewrite IH.
Qed.

Lemma elem_of_ids_of_inv st (b : list loc) x :
  x ∈ ids_of st b → existsb (has_id st x) b = true.
Proof.
  induction b as [|y b IH]; simpl; [by intros ?%elem_of_nil|].
  unfold has_id at 1. destruct (heap st !! y) as [s|]; simpl.
  - intros [->|Hin]%elem_of_cons.
    + by rewrite bool_decide_eq_true_2.
    + rewrite IH by done. apply orb_true_r.
  - intros Hin. by apply IH.
Qed.

Lemma splice_first_sublist p (b : list loc) : splice_first p b `sublist_of` b.
Proof.
  induction b as [|x b IH]; simpl; [done|].
  destruct (p x); [by apply sublist_cons|by apply sublist_skip].
Qed.

Lemma ids_of_sublist st (b b' : list loc) :
  b' `sublist_of` b → ids_of st b' `sublist_of` ids_of st b.
Proof.
  induction 1 as [|x b1 b2 _ IH|x b1 b2 _ IH]; simpl; [done| |].
  - destruct (heap st !! x); [by apply sublist_skip|done].
  - destruct (heap st !! x); [by apply sublist_cons|done].
Qed.

Lemma buckets_ok_keeps st st' :
  keeps st st' → uidMap st' = uidMap st → buckets_ok st → buckets_ok st'.
Proof.
  intros Hk Hm Hb u b Hub. rewrite Hm in Hub.
  destruct (Hb u b Hub) as (Hne & Hin & Hnd & Hsg).
  split; [done|]. split; [|split].
  - intros l Hl. destruct (Hin l Hl) as [s Hs].
    destruct Hk as [_ Hk]. destruct (Hk l s Hs) as (s' & -> & _). done.
  - by rewrite (ids_of_keeps st st' b Hk Hin).
  - destruct Hk as [-> _]. done.
Qed.

(** The index after the splice loop of [unbind] and [remove]. *)
Lemma buckets_ok_splice st st' u p :
  keeps st st' →
  uidMap st' = uidMap st
  ∨ (∃ b, uidMap st !! u = Some b
          ∧ uidMap st' = if bool_decide (splice_first p b = [])
                         then delete u (uidMap st)
                         else <[u := splice_first p b]> (uidMap st)) →
  buckets_ok st → buckets_ok st'.
Proof.
  intros Hk [Hm|(b & Hb & Hm)] Hok; [by eapply buckets_ok_keeps|].
  assert (∀ u' b', uidMap st' !! u' = Some b' →
            b' ≠ [] ∧ (∀ l, l ∈ b' → is_Some (heap st !! l))
            ∧ NoDup (ids_of st b')
            ∧ (singleSession st = true → length b' = 1)) as Hok'.
  { intros u' b' Hb'. rewrite Hm in Hb'.
    destruct (decide (u' = u)) as [->|Hne].
    - case_bool_decide as Hnil; [by rewrite lookup_delete_eq in Hb'|].
      rewrite lookup_insert_eq in Hb'. injection Hb' as <-.
      destruct (Hok u b Hb) as (_ & Hin & Hnd & Hsg).
      pose proof (splice_first_sublist p b) as Hsub.
      split; [done|]. split; [|split].
      + intros l Hl. apply Hin. by eapply elem_of_sublist.
      + eapply sublist_NoDup; [done|]. by apply ids_of_sublist.
      + intros Hs. specialize (Hsg Hs).
        apply sublist_length in Hsub.
        destruct (splice_first p b); [done|]. simpl in *. lia.
    - assert (uidMap st !! u' = Some b') as Hold.
      { case_bool_decide; [by rewrite lookup_delete_ne in Hb'|
                           by rewrite lookup_insert_ne in Hb']. }
      by apply (Hok u' b'). }
  intros u' b' Hb'. destruct (Hok' u' b' Hb') as (Hne & Hin & Hnd & Hsg).
  split; [done|]. split; [|split].
  - intros l Hl. destruct (Hin l Hl) as [s Hs].
    destruct Hk as [_ Hk]. destruct (Hk l s Hs) as (s' & -> & _). done.
  - by rewrite (ids_of_keeps st st' b' Hk Hin).
  - destruct Hk as [-> _]. done.
Qed.

Lemma keyed_shrink st st' :
  keeps st st' →
  (∀ sid l, sessions st' !! sid = Some l → sessions st !! sid = Some l) →
  keyed st → keyed st'.
Proof.
  intros [_ Hk] Hsub Hkey sid l Hl.
  destruct (Hkey sid l (Hsub sid l Hl)) as (s & Hs & Hid).
  destruct (Hk l s Hs) as (s' & Hs' & Hid'). exists s'. split; congruence.
Qed.

Lemma SessionService_remove_uidMap sid st :
  ∃ u, uidMap (SessionService_remove sid st) = uidMap st
       ∨ ∃ b, uidMap st !! u = Some b
              ∧ uidMap (SessionService_remove sid st)
                = if bool_decide (splice_first (has_id st sid) b = [])
                  then delete u (uidMap st)
                  else <[u := splice_first (has_id st sid) b]> (uidMap st).
Proof.
  unfold SessionService_remove.
  destruct (lookup_session st sid) as [[l s]|]; [|exists 0%Z; by left].
  destruct (Session.uid s) as [u|]; [|exists 0%Z; by left].
  exists u. destruct (uidMap st !! u) as [b|] eqn:Hb; [|by left].
  destruct (existsb _ b); [|by left].
  right. exists b. split; [done|]. by destruct (bool_decide _).
Qed.

Lemma buckets_ok_remove sid st :
  buckets_ok st → buckets_ok (SessionService_remove sid st).
Proof.
  intros Hok. destruct (SessionService_remove_uidMap sid st) as (u & Hm).
  destruct (SessionService_remove_frame sid st) as (Hh & _ & _ & Hsg).
  eapply (buckets_ok_splice st _ u (has_id st sid)); [|exact Hm|done].
  by apply keeps_heap_eq.
Qed.

Lemma buckets_ok_unbind sid uid cb st :
  buckets_ok st → buckets_ok (SessionService_unbind sid uid cb st).
Proof.
  intros Hok.
  destruct (SessionService_unbind_effect st sid uid cb)
    as [(Hsg & _ & Hu & Hh & _)|(l & s & _ & _ & Hsg & _ & _ & Hh & Hu)].
  - apply (buckets_ok_keeps st); [by apply keeps_heap_eq|done..].
  - eapply (buckets_ok_splice st _ uid (has_id st sid));
      [by eapply keeps_alter_uid| |done].
    simpl in Hu. destruct (uidMap st !! uid) as [b|] eqn:Hb; [|by left].
    right. by exists b.
Qed.

Lemma buckets_ok_bind sid uid cb st :
  buckets_ok st → buckets_ok (SessionService_bind sid uid cb st).
Proof.
  intros Hok. unfold SessionService_bind.
  assert (∀ e, buckets_ok (record e st)) as Hrec.
  { intros e. apply (buckets_ok_keeps st); [by apply keeps_heap_eq|done..]. }
  destruct (lookup_session st sid) as [[l s]|] eqn:Hls; [|apply Hrec].
  apply lookup_session_Some in Hls as [_ Hs].
  destruct (truthy (Session.uid s)).
  { destruct (bool_decide _); apply Hrec. }
  destruct (singleSession st && bool_decide (is_Some (uidMap st !! uid)))
    eqn:E1; [apply Hrec|].
  destruct (existsb (has_id st (Session.id s)) (default [] (uidMap st !! uid)))
    eqn:E2; [apply Hrec|].
  set (b := default [] (uidMap st !! uid)) in *.
  set (st' := nextTick _ _).
  assert (keeps st st') as Hk by by eapply keeps_alter_uid.
  assert (∀ x, x ∈ b → is_Some (heap st !! x)) as Hin.
  { intros x Hx. unfold b in Hx.
    destruct (uidMap st !! uid) as [b0|] eqn:Hb0; simpl in Hx.
    - destruct (Hok uid b0 Hb0) as (_ & Hin & _). by apply Hin.
    - by apply elem_of_nil in Hx. }
  assert (∀ u' b', uidMap st' !! u' = Some b' →
            b' ≠ [] ∧ (∀ x, x ∈ b' → is_Some (heap st !! x))
            ∧ NoDup (ids_of st b')
            ∧ (singleSession st = true → length b' = 1)) as Hok'.
  { intros u' b' Hb'. simpl in Hb'.
    destruct (decide (u' = uid)) as [->|Hne].
    - rewrite lookup_insert_eq in Hb'. injection Hb' as <-.
      split; [by destruct b|]. split; [|split].
      + intros x [Hx| ->%list_elem_of_singleton]%elem_of_app; [by apply Hin|].
        by rewrite Hs.
      + rewrite ids_of_app. simpl. rewrite Hs. apply NoDup_app.
        split; [|split].
        * unfold b. destruct (uidMap st !! uid) as [b0|] eqn:Hb0; simpl.
          -- by destruct (Hok uid b0 Hb0) as (_ & _ & ? & _).
          -- constructor.
        * intros x Hx ->%list_elem_of_singleton.
          apply elem_of_ids_of_inv in Hx. congruence.
        * apply NoDup_singleton.
      + intros Hsg. rewrite Hsg in E1. simpl in E1.
        apply bool_decide_eq_false in E1. unfold b.
        destruct (uidMap st !! uid); [|done]. by destruct E1.
    - rewrite lookup_insert_ne in Hb' by done. by apply (Hok u' b'). }
  intros u' b' Hb'. destruct (Hok' u' b' Hb') as (Hne & Hin' & Hnd & Hsg).
  split; [done|]. split; [|split].
  - intros x Hx. destruct (Hin' x Hx) as [sx Hsx].
    destruct Hk as [_ Hk]. destruct (Hk x sx Hsx) as (s' & -> & _). done.
  - by rewrite (ids_of_keeps st st' b' Hk Hin').
  - destruct Hk as [-> _]. done.
Qed.

Lemma registered_all_closed_keyed P st this reason :
  keyed st → registered_all P st →
  registered_all P (Session_closed this reason st).
Proof.
  intros Hkey H. destruct (heap st !! this) as [session|] eqn:Hs.
  2:{ unfold Session_closed. by rewrite Hs. }
  destruct (decide (Session.__state__ session = ST_CLOSED)) as [Hc|Ho].
  { rewrite Session_closed_closed; [done|]. by exists session. }
  destruct (Session_closed_open this session reason st Hs Ho)
    as (Hh & Hse & _).
  set (closed := Session.set_state ST_CLOSED session) in *.
  set (st1 := set_heap (insert this closed) st) in *.
  intros sid l s. rewrite Hh, Hse. intros Hl.
  pose proof (SessionService_remove_subset _ _ _ _ Hl) as Hl1.
  destruct (decide (l = this)) as [->|Hne].
  - exfalso. destruct (Hkey sid this Hl1) as (s0 & Hs0 & Hid).
    assert (s0 = session) as -> by congruence. subst sid.
    rewrite (SessionService_remove_sessions _ st1 this closed) in Hl.
    + simpl in Hl. by rewrite lookup_delete_eq in Hl.
    + apply lookup_session_Some. split; [done|]. apply lookup_insert_eq.
  - rewrite lookup_insert_ne by done. intros Hs'. by eapply (H sid l s).
Qed.

Lemma sound_ext st st' :
  singleSession st' = singleSession st → sessions st' = sessions st →
  uidMap st' = uidMap st → heap st' = heap st → sound st → sound st'.
Proof.
  intros Hsg Hs Hu Hh (Hk & Ho & Hb). split; [|split].
  - apply (keyed_shrink st); [by apply keeps_heap_eq|by rewrite Hs|done].
  - by apply (registered_all_ext _ st).
  - apply (buckets_ok_keeps st); [by apply keeps_heap_eq|done..].
Qed.

Lemma sound_remove sid st : sound st → sound (SessionService_remove sid st).
Proof.
  intros (Hk & Ho & Hb).
  destruct (SessionService_remove_frame sid st) as (Hh & _ & _ & Hsg).
  split; [|split].
  - apply (keyed_shrink st); [by apply keeps_heap_eq| |done].
    intros sid' l. apply SessionService_remove_subset.
  - by apply registered_all_remove.
  - by apply buckets_ok_remove.
Qed.

Lemma sound_closed this reason st :
  sound st → sound (Session_closed this reason st).
Proof.
  intros Hsound. pose proof Hsound as (Hk & Ho & Hb).
  split; [|split; [by apply registered_all_closed_keyed|]];
    destruct (heap st !! this) as [session|] eqn:Hs;
    try (unfold Session_closed; by rewrite Hs);
    (destruct (decide (Session.__state__ session = ST_CLOSED)) as [Hc|Hopen];
     [rewrite Session_closed_closed; [done|by exists session]|]);
    destruct (Session_closed_open this session reason st Hs Hopen)
      as (Hh & Hse & Hu & Hsg & _);
    set (st1 := set_heap (insert this (Session.set_state ST_CLOSED session)) st)
      in *.
  - apply (keyed_shrink st); [by eapply keeps_insert_state| |done].
    intros sid l Hl. rewrite Hse in Hl.
    apply SessionService_remove_subset in Hl. exact Hl.
  - assert (buckets_ok st1) as Hb1.
    { apply (buckets_ok_keeps st); [|done..].
      by eapply (keeps_insert_state st st1 this session). }
    pose proof (buckets_ok_remove (Session.id session) st1 Hb1) as Hb2.
    destruct (SessionService_remove_frame (Session.id session) st1)
      as (Hh2 & _ & _ & Hsg2).
    apply (buckets_ok_keeps (SessionService_remove (Session.id session) st1));
      [|done..].
    apply keeps_heap_eq; [by rewrite Hsg, Hsg2|by rewrite Hh, Hh2].
Qed.

Lemma sound_close_each sids reason st :
  sound st → sound (state_of (close_each sids reason st)).
Proof.
  revert st. induction sids as [|sid sids IH]; intros st H; [done|].
  simpl. destruct (sessions st !! sid) as [l|]; [|done].
  by apply IH, sound_closed.
Qed.

Lemma close_each_single sids reason st :
  singleSession (state_of (close_each sids reason st)) = singleSession st.
Proof.
  revert st. induction sids as [|sid sids IH]; intros st; [done|]. simpl.
  destruct (sessions st !! sid) as [l|]; [|done]. rewrite IH.
  destruct (heap st !! l) as [session|] eqn:Hs.
  2:{ unfold Session_closed. by rewrite Hs. }
  destruct (decide (Session.__state__ session = ST_CLOSED)) as [Hc|Hopen].
  { rewrite Session_closed_closed; [done|by exists session]. }
  by destruct (Session_closed_open l session reason st Hs Hopen)
    as (_ & _ & _ & ? & _).
Qed.

Lemma SessionService_kick_single uid reason cb st :
  singleSession (state_of (SessionService_kick uid reason cb st))
  = singleSession st.
Proof.
  unfold SessionService_kick, SessionService_getByUid.
  destruct (is_function reason); destruct (uidMap st !! uid) as [b|];
    try done.
  - pose proof (close_each_single (ids_of st b) (VStr "kick") st) as Hce.
    by destruct (close_each _ _ _).
  - pose proof (close_each_single (ids_of st b) reason st) as Hce.
    by destruct (close_each _ _ _).
Qed.

Lemma sound_new single : sound (SessionService_new single).
Proof. split; [|split]; intros ? ? ?; by rewrite ?lookup_empty. Qed.

Lemma sound_exec op st : sound st → sound (exec op st).
Proof.
  intros Hsound. pose proof Hsound as (Hk & Ho & Hb). destruct op; simpl.
  - (* create *)
    assert (heap st !! fresh (dom (heap st)) = None) as Hf
      by apply not_elem_of_dom, is_fresh.
    split; [|split].
    + intros sid' l. unfold SessionService_create. simpl.
      destruct (decide (sid' = sid)) as [->|Hne].
      * rewrite lookup_insert_eq. intros [= <-]. eexists.
        by rewrite lookup_insert_eq.
      * rewrite lookup_insert_ne by done. intros Hl.
        destruct (Hk sid' l Hl) as (s & Hs & Hid). exists s.
        rewrite lookup_insert_ne; [done|]. congruence.
    + intros sid' l s. unfold SessionService_create. simpl.
      destruct (decide (sid' = sid)) as [->|Hne].
      * rewrite lookup_insert_eq. intros [= <-].
        rewrite lookup_insert_eq. by intros [= <-].
      * rewrite lookup_insert_ne by done. intros Hl.
        destruct (Hk sid' l Hl) as (s' & Hs' & _).
        rewrite lookup_insert_ne by congruence. by apply (Ho sid' l s).
    + apply (buckets_ok_keeps st); [|done..]. split; [done|].
      intros l s Hs. exists s. unfold SessionService_create. simpl.
      rewrite lookup_insert_ne; [done|]. congruence.
  - (* bind *)
    split; [|split; [by apply registered_all_bind|by apply buckets_ok_bind]].
    destruct (SessionService_bind_effect st sid uid cb)
      as [(Hsg & Hs & _ & Hh & _)|(l & s & _ & _ & Hsg & Hs & _ & _ & Hh)].
    + apply (keyed_shrink st); [by apply keeps_heap_eq|by rewrite Hs|done].
    + apply (keyed_shrink st); [by eapply keeps_alter_uid|by rewrite Hs|done].
  - (* unbind *)
    split; [|split; [by apply registered_all_unbind|by apply buckets_ok_unbind]].
    destruct (SessionService_unbind_effect st sid uid cb)
      as [(Hsg & Hs & _ & Hh & _)|(l & s & _ & _ & Hsg & Hs & _ & Hh & _)].
    + apply (keyed_shrink st); [by apply keeps_heap_eq|by rewrite Hs|done].
    + apply (keyed_shrink st); [by eapply keeps_alter_uid|by rewrite Hs|done].
  - by apply sound_remove.
  - destruct (SessionService_import_frame sid key value cb st) as (Hs & Hu & Hh).
    apply (sound_ext st); [|done..].
    unfold SessionService_import.
    destruct (lookup_session st sid) as [[l s]|].
    + by destruct (invokeCallback_frame cb None (Session_set key value s st))
        as (_ & _ & _ & _ & ->); destruct key.
    + by destruct (invokeCallback_frame cb (Some (SessionNotFound sid)) st)
        as (_ & _ & _ & _ & ->).
  - destruct (SessionService_importAll_frame sid settings cb st)
      as (Hs & Hu & Hh).
    apply (sound_ext st); [|done..].
    unfold SessionService_importAll.
    destruct (lookup_session st sid) as [[l s]|].
    + by destruct (invokeCallback_frame cb None
          (set_objects (alter (λ o, default ∅ (objects st !! settings) ∪ o)
                          (Session.settings s)) st)) as (_ & _ & _ & _ & ->).
    + by destruct (invokeCallback_frame cb (Some (SessionNotFound sid)) st)
        as (_ & _ & _ & _ & ->).
  - destruct (SessionService_kick_state uid reason cb st)
      as (sids & reason' & Hs & Hu & Hh). simpl in *.
    apply (sound_ext (state_of (close_each sids reason' st)));
      [|done..|by apply sound_close_each].
    by rewrite SessionService_kick_single, close_each_single.
  - unfold SessionService_kickBySessionId, SessionService_get.
    destruct (is_function reason); destruct (sessions st !! sid) as [l|];
      first [by apply (sound_ext st)
            |eapply sound_ext; [| | | |by apply sound_closed]; done].
  - by apply sound_closed.
Qed.

Lemma reachable_sound ok st : reachable ok st → sound st.
Proof.
  induction 1 as [single|st op _ IH _]; [apply sound_new|by apply sound_exec].
Qed.

(** Whatever the operations called, and with whatever arguments: a session
    of the table is registered under its own id and is not CLOSED. *)
Theorem registered_sessions_keyed_and_open (ok : State → Op → Prop)
    (st : State) :
  reachable ok st →
  ∀ sid l, SessionService_get sid st = Some l →
           ∃ s, heap st !! l = Some s ∧ Session.id s = sid
                ∧ Session.__state__ s ≠ ST_CLOSED.
Proof.
  intros Hr sid l Hl. destruct (reachable_sound ok st Hr) as (Hk & Ho & _).
  destruct (Hk sid l Hl) as (s & Hs & Hid). exists s.
  split; [done|]. split; [done|]. by apply (Ho sid l s).
Qed.

Lemma registered_sessions_keyed_and_open_witness :
  ∃ s, heap overwritten_state !! 1 = Some s ∧ Session.id s = 1%Z
       ∧ Session.__state__ s ≠ ST_CLOSED.
Proof.
  apply (registered_sessions_keyed_and_open (λ _ _, True) overwritten_state).
  - unfold overwritten_state.
    repeat (apply reachable_exec; [|exact I]). apply reachable_new.
  - reflexivity.
Defined.

(** Whatever the operations called: [getByUid] never answers an empty
    array, a bucket never holds two sessions with the same id, and under
    the singleSession policy a bucket holds exactly one session. *)
Theorem buckets_of_reachable (ok : State → Op → Prop) (st : State) :
  reachable ok st →
  ∀ uid b, SessionService_getByUid uid st = Some b →
           b ≠ [] ∧ NoDup (ids_of st b) ∧ length (ids_of st b) = length b
           ∧ (singleSession st = true → length b = 1).
Proof.
  intros Hr uid b Hb. destruct (reachable_sound ok st Hr) as (_ & _ & Hok).
  destruct (Hok uid b Hb) as (Hne & Hin & Hnd & Hsg).
  split; [done|]. split; [done|]. split; [|done].
  clear -Hin. induction b as [|x b IH]; [done|]. simpl.
  destruct (Hin x) as [s ->]; [apply list_elem_of_here|]. simpl. f_equal.
  apply IH. intros l Hl. by apply Hin, list_elem_of_further.
Qed.


Lemma buckets_of_reachable_witness :
  SessionService_getByUid 42 single_state = Some [0]
  ∧ length [0] = 1.
Proof.
  split; [vm_compute; reflexivity|].
  destruct (buckets_of_reachable (λ _ _, True) single_state) with (uid := 42%Z)
    (b := [0]) as (_ & _ & _ & H).
  - unfold single_state.
    repeat (apply reachable_exec; [|exact I]). apply reachable_new.
  - vm_compute; reflexivity.
  - apply H. reflexivity.
Defined.

(** ** unbind, for a uid other than 0 *)

(** In an indexed registry [unbind(sid, uid, cb)] of a session bound to
    [uid] (not 0) takes the session out of the bucket of [uid] and nothing
    else: the bucket that is left does not hold it and is not empty (an
    empty one is deleted), the other buckets stay, and the session's uid is
    null. *)
Theorem unbind_takes_session_out (st : State) (sid uid : Z) (cb : Callback)
    (l : loc) (s : Session) :
  indexed st → lookup_session st sid = Some (l, s) →
  Session.uid s = Some uid → uid ≠ 0%Z →
  let st' := SessionService_unbind sid uid cb st in
  (∀ b', SessionService_getByUid uid st' = Some b' → (l ∉ b') ∧ (b' ≠ []))
  ∧ (∀ b x, SessionService_getByUid uid st = Some b → x ∈ b → x ≠ l →
            ∃ b', SessionService_getByUid uid st' = Some b' ∧ x ∈ b')
  ∧ (∀ u', u' ≠ uid →
       SessionService_getByUid u' st' = SessionService_getByUid u' st)
  ∧ (Session.uid <$> heap st' !! l) = Some None
  ∧ sessions st' = sessions st
  ∧ log st' = log st ++ [SessionEmit l (NUnbind uid); NextTick (TCall cb None)].
Proof.
  intros Hi Hls Hu H0 st'.
  destruct (SessionService_unbind_removes st sid uid cb l s Hi Hls Hu H0)
    as (Hm & Hout & Hother & Huid).
  destruct (SessionService_unbind_bound st sid uid cb l s Hls Hu H0)
    as (Hse & _ & _ & _ & Hlog & _).
  fold st' in Hm, Hout, Hother, Huid, Hse, Hlog.
  unfold SessionService_getByUid.
  split; [done|]. split; [|done].
  intros b x Hb Hx Hne. rewrite Hm.
  destruct (indexed_bucket st Hi uid b Hb) as (Hnd & _).
  by apply (unindex_lookup_other uid l _ b).
Qed.

Lemma unbind_takes_session_out_witness :
  (Session.uid <$> heap (SessionService_unbind 1 42 5 shared_uid_state) !! 0)
  = Some None.
Proof.
  destruct shared_uid_state_maintained as (Hi & _).
  destruct (unbind_takes_session_out shared_uid_state 1 42 5 0
              (Session.mk 1 "connector-1" (Some 42%Z) 0 9 ST_INITED)
              Hi eq_refl eq_refl) as (_ & _ & _ & H & _); [discriminate|].
  exact H.
Defined.

(** ** Settings: import, importAll, push, pushAll *)

Section Settings.
Variables (st : State) (sid : Z) (l : loc) (s : Session)
          (o : gmap string Value).
Hypothesis Hls : lookup_session st sid = Some (l, s).
Hypothesis Ho : objects st !! Session.settings s = Some o.

Lemma Session_get_stored k : Session_get k s st = prop o k.
Proof. unfold Session_get. by rewrite Ho. Qed.

Lemma import_objects key value cb :
  objects (SessionService_import sid (KName key) value cb st)
  = <[Session.settings s := <[key := value]> o]> (objects st).
Proof.
  unfold SessionService_import. rewrite Hls.
  destruct (invokeCallback_frame cb None
              (Session_set (KName key) value s st)) as (_ & _ & _ & -> & _).
  simpl. apply map_eq. intros x.
  destruct (decide (x = Session.settings s)) as [->|Hne].
  - by rewrite lookup_alter_eq, lookup_insert_eq, Ho.
  - by rewrite lookup_alter_ne, lookup_insert_ne.
Qed.

Lemma importAll_objects m src cb :
  objects st !! m = Some src →
  objects (SessionService_importAll sid m cb st)
  = <[Session.settings s := src ∪ o]> (objects st).
Proof.
  intros Hm. unfold SessionService_importAll. rewrite Hls, Hm.
  destruct (invokeCallback_frame cb None
              (set_objects (alter (λ o0, default ∅ (Some src) ∪ o0)
                              (Session.settings s)) st))
    as (_ & _ & _ & -> & _).
  simpl. apply map_eq. intros x.
  destruct (decide (x = Session.settings s)) as [->|Hne].
  - by rewrite lookup_alter_eq, lookup_insert_eq, Ho.
  - by rewrite lookup_alter_ne, lookup_insert_ne.
Qed.
End Settings.

(** [import(sid, key, value, cb)] on a registered session stores the value
    in its settings: [get(key)] then reads it, every other key reads as
    before, no other object of the store and nothing of the registry is
    touched, and the callback, if it is a function, has run in the call,
    with no error. *)
Theorem import_then_get (st : State) (sid : Z) (key : string)
    (value cb : Value) (l : loc) (s : Session) (o : gmap string Value) :
  lookup_session st sid = Some (l, s) →
  objects st !! Session.settings s = Some o →
  let st' := SessionService_import sid (KName key) value cb st in
  Session_get key s st' = value
  ∧ (∀ k, k ≠ key → Session_get k s st' = Session_get k s st)
  ∧ (∀ x, x ≠ Session.settings s → objects st' !! x = objects st !! x)
  ∧ sessions st' = sessions st ∧ uidMap st' = uidMap st ∧ heap st' = heap st
  ∧ log st' = log st ++ match cb with VFun f => [Invoke f None] | _ => [] end.
Proof.
  intros Hls Ho st'.
  pose proof (import_objects st sid l s o Hls Ho key value cb) as Hobj.
  fold st' in Hobj.
  destruct (SessionService_import_frame sid (KName key) value cb st)
    as (Hs & Hu & Hh). fold st' in Hs, Hu, Hh.
  unfold Session_get. rewrite Hobj, Ho, lookup_insert_eq. simpl.
  split; [unfold prop; by rewrite lookup_insert_eq|].
  split; [intros k Hne; unfold prop; by rewrite lookup_insert_ne|].
  split; [intros x Hne; by rewrite lookup_insert_ne|].
  do 3 (split; [done|]).
  unfold st', SessionService_import. rewrite Hls.
  destruct cb; simpl; by rewrite ?app_nil_r.
Qed.

Lemma import_then_get_witness :
  Session_get "score"
    (Session.mk 1 "connector-1" None 0 9 ST_INITED)
    (SessionService_import 1 (KName "score") (VNum 10) VUndefined open_state)
  = VNum 10.
Proof.
  destruct (import_then_get open_state 1 "score" (VNum 10) VUndefined 0
              (Session.mk 1 "connector-1" None 0 9 ST_INITED) ∅
              eq_refl eq_refl) as (H & _).
  exact H.
Defined.

(** [importAll(sid, m, cb)] merges the object [m] into the settings of the
    session: a key of [m] reads as in [m], every other key as before.
    [import] with the object in the place of the key does the same,
    whatever its value argument. *)
Theorem importAll_merges (st : State) (sid : Z) (m : loc) (cb : Value)
    (l : loc) (s : Session) (o src : gmap string Value) :
  lookup_session st sid = Some (l, s) →
  objects st !! Session.settings s = Some o →
  objects st !! m = Some src →
  let st' := SessionService_importAll sid m cb st in
  (∀ k, Session_get k s st'
        = match src !! k with
          | Some v => v
          | None => Session_get k s st
          end)
  ∧ (∀ x, x ≠ Session.settings s → objects st' !! x = objects st !! x)
  ∧ sessions st' = sessions st ∧ uidMap st' = uidMap st ∧ heap st' = heap st
  ∧ (∀ value, SessionService_import sid (KMap m) value cb st = st').
Proof.
  intros Hls Ho Hm st'.
  pose proof (importAll_objects st sid l s o Hls Ho m src cb Hm) as Hobj.
  fold st' in Hobj.
  destruct (SessionService_importAll_frame sid m cb st) as (Hs & Hu & Hh).
  fold st' in Hs, Hu, Hh. split.
  { intros k. unfold Session_get, prop.
    rewrite Hobj, Ho, lookup_insert_eq. simpl.
    destruct (src !! k) as [v|] eqn:Hk.
    - by rewrite (lookup_union_Some_l _ _ _ _ Hk).
    - by rewrite lookup_union_r. }
  split; [intros x Hne; rewrite Hobj; by rewrite lookup_insert_ne|].
  do 3 (split; [done|]).
  intros value. unfold st', SessionService_import, SessionService_importAll.
  by rewrite Hls.
Qed.

Lemma importAll_merges_witness :
  let s := Session.mk 1 "connector-1" None 0 9 ST_INITED in
  let st' := SessionService_importAll 1 1 VUndefined merge_state in
  Session_get "a" s st' = VNum 1 ∧ Session_get "b" s st' = VNum 3
  ∧ Session_get "c" s st' = VNum 4.
Proof.
  destruct (importAll_merges merge_state 1 1 VUndefined 0
              (Session.mk 1 "connector-1" None 0 9 ST_INITED)
              {[ "a" := VNum 1; "b" := VNum 2 ]}
              {[ "b" := VNum 3; "c" := VNum 4 ]}) as (H & _);
    [vm_compute; reflexivity..|].
  simpl. split; [|split].
  - rewrite (H "a"). reflexivity.
  - rewrite (H "b"). reflexivity.
  - rewrite (H "c"). reflexivity.
Defined.

(** ** The projection and its settings *)

(** [toFrontendSession()] copies id, frontendId and uid, remembers the
    session, and gives the projection a settings object of its own, new in
    the store, with the entries the session's settings have at that
    moment; nothing else changes.  From then on the two are apart at the
    top level: [session.set] does not change the settings of the
    projection, and [set] on the projection does not change what
    [session.get] reads. *)
Theorem projection_is_snapshot (st : State) (l : loc) (s : Session)
    (o : gmap string Value) :
  heap st !! l = Some s → objects st !! Session.settings s = Some o →
  ∃ fs st',
    Session_toFrontendSession l st = Some (fs, st')
    ∧ FrontendSession.id fs = Session.id s
    ∧ FrontendSession.frontendId fs = Session.frontendId s
    ∧ FrontendSession.uid fs = Session.uid s
    ∧ FrontendSession.__session__ fs = l
    ∧ FrontendSession.settings fs ≠ Session.settings s
    ∧ objects st !! FrontendSession.settings fs = None
    ∧ objects st' !! FrontendSession.settings fs = Some o
    ∧ (∀ x, x ≠ FrontendSession.settings fs →
            objects st' !! x = objects st !! x)
    ∧ sessions st' = sessions st ∧ uidMap st' = uidMap st
    ∧ heap st' = heap st ∧ log st' = log st
    ∧ (∀ k, FrontendSession_get k fs st' = Session_get k s st)
    ∧ (∀ key value k,
         FrontendSession_get k fs (Session_set key value s st')
         = Session_get k s st)
    ∧ (∀ key value k,
         Session_get k s (FrontendSession_set key value fs st')
         = Session_get k s st).
Proof.
  intros Hs Ho. unfold Session_toFrontendSession. rewrite Hs. simpl.
  eexists _, _. split; [reflexivity|]. simpl.
  set (c := fresh (dom (objects st))).
  assert (objects st !! c = None) as Hc by apply not_elem_of_dom, is_fresh.
  assert (c ≠ Session.settings s) as Hne by congruence.
  do 4 (split; [done|]). split; [done|]. split; [done|].
  split; [by rewrite Ho, lookup_insert_eq|].
  split; [intros x Hx; by rewrite lookup_insert_ne|].
  do 4 (split; [done|]).
  unfold FrontendSession_get, Session_get, Session_set, FrontendSession_set.
  simpl. fold c. rewrite Ho. simpl. split; [|split].
  - intros k. by rewrite lookup_insert_eq.
  - intros key value k. destruct key; simpl;
      by rewrite lookup_alter_ne, lookup_insert_eq.
  - intros key value k.
    by rewrite lookup_alter_ne, lookup_insert_ne, Ho.
Qed.

Lemma projection_is_snapshot_witness :
  ∃ fs st', score_projection = Some (fs, st')
            ∧ FrontendSession_get "score" fs st' = VNum 10.
Proof.
  destruct (projection_is_snapshot score_state 0
              (Session.mk 1 "connector-1" (Some 7%Z) 0 9 ST_INITED)
              {[ "score" := VNum 10 ]} eq_refl eq_refl)
    as (fs & st' & Hp & _ & _ & _ & _ & _ & _ & _ & _ & _ & _ & _ & _ & Hg & _).
  exists fs, st'. split; [exact Hp|]. rewrite (Hg "score"). reflexivity.
Defined.

Section Push.
Variables (st : State) (fs : FrontendSession) (l : loc) (s : Session)
          (o ofs : gmap string Value).
Hypothesis Hls : lookup_session st (FrontendSession.id fs) = Some (l, s).
Hypothesis Ho : objects st !! Session.settings s = Some o.
Hypothesis Hofs : objects st !! FrontendSession.settings fs = Some ofs.
Hypothesis Hapart : FrontendSession.settings fs ≠ Session.settings s.

Lemma FrontendSession_set_objects key value :
  objects (FrontendSession_set key value fs st)
  = <[FrontendSession.settings fs := <[key := value]> ofs]> (objects st).
Proof.
  unfold FrontendSession_set. simpl. apply map_eq. intros x.
  destruct (decide (x = FrontendSession.settings fs)) as [->|Hne].
  - by rewrite lookup_alter_eq, lookup_insert_eq, Hofs.
  - by rewrite lookup_alter_ne, lookup_insert_ne.
Qed.

End Push.

(** [set] then [push]: the value set on the projection reaches the session
    with [push(key)], and not before.  [push] writes what [get(key)] reads
    on the projection, [undefined] for a key it does not hold, and leaves
    the other keys of the session as they are. *)
Theorem set_then_push (st : State) (fs : FrontendSession) (l : loc)
    (s : Session) (o ofs : gmap string Value) (key : string)
    (value cb : Value) :
  lookup_session st (FrontendSession.id fs) = Some (l, s) →
  objects st !! Session.settings s = Some o →
  objects st !! FrontendSession.settings fs = Some ofs →
  FrontendSession.settings fs ≠ Session.settings s →
  let st1 := FrontendSession_set key value fs st in
  let st2 := FrontendSession_push key cb fs st1 in
  FrontendSession_get key fs st1 = value
  ∧ Session_get key s st1 = Session_get key s st
  ∧ Session_get key s st2 = value
  ∧ (∀ k, k ≠ key → Session_get k s st2 = Session_get k s st)
  ∧ (∀ k, Session_get k s (FrontendSession_push k cb fs st)
          = FrontendSession_get k fs st).
Proof.
  intros Hls Ho Hofs Hapart st1 st2.
  pose proof (FrontendSession_set_objects st fs ofs Hofs key value) as Hobj1.
  fold st1 in Hobj1.
  assert (objects st1 !! Session.settings s = Some o) as Ho1
    by (rewrite Hobj1; by rewrite lookup_insert_ne).
  assert (FrontendSession_get key fs st1 = value) as Hget.
  { unfold FrontendSession_get, prop.
    by rewrite Hobj1, lookup_insert_eq; simpl; rewrite lookup_insert_eq. }
  split; [done|].
  split; [unfold Session_get; by rewrite Ho1, Ho|].
  assert (∀ st0 k v, lookup_session st0 (FrontendSession.id fs) = Some (l, s) →
            objects st0 !! Session.settings s = Some o →
            Session_get k s
              (SessionService_import (FrontendSession.id fs) (KName k) v cb st0)
            = v
            ∧ ∀ k', k' ≠ k →
                Session_get k' s
                  (SessionService_import (FrontendSession.id fs) (KName k) v
                     cb st0) = prop o k') as Himp.
  { intros st0 k v Hls0 Ho0. unfold Session_get.
    rewrite (import_objects st0 _ l s o Hls0 Ho0 k v cb), lookup_insert_eq.
    simpl. unfold prop. split; [by rewrite lookup_insert_eq|].
    intros k' Hne. by rewrite lookup_insert_ne. }
  destruct (Himp st1 key (FrontendSession_get key fs st1) Hls Ho1) as [H1 H2].
  split; [unfold st2, FrontendSession_push; by rewrite H1|].
  split.
  { intros k Hne. unfold st2, FrontendSession_push. rewrite (H2 k Hne).
    unfold Session_get. by rewrite Ho. }
  intros k. unfold FrontendSession_push.
  by destruct (Himp st k (FrontendSession_get k fs st) Hls Ho) as [-> _].
Qed.

Lemma set_then_push_witness :
  Session_get "score" projected_session
    (FrontendSession_push "score" VUndefined projected_fs
       (FrontendSession_set "score" (VNum 11) projected_fs projected_state))
  = VNum 11.
Proof.
  destruct (set_then_push projected_state projected_fs 0 projected_session
              {[ "score" := VNum 10 ]} {[ "score" := VNum 10 ]}
              "score" (VNum 11) VUndefined) as (_ & _ & H & _);
    [vm_compute; reflexivity..|discriminate|].
  exact H.
Defined.

(** [pushAll] merges the settings of the projection into those of the
    session: a key of the projection reads as on the projection, any other
    key as before.  Pushing back a projection that was not changed leaves
    the settings of the session as they are. *)
Theorem pushAll_merges (st : State) (fs : FrontendSession) (l : loc)
    (s : Session) (o ofs : gmap string Value) (cb : Value) :
  lookup_session st (FrontendSession.id fs) = Some (l, s) →
  objects st !! Session.settings s = Some o →
  objects st !! FrontendSession.settings fs = Some ofs →
  let st' := FrontendSession_pushAll cb fs st in
  (∀ k, Session_get k s st'
        = match ofs !! k with
          | Some v => v
          | None => Session_get k s st
          end)
  ∧ (ofs = o → objects st' !! Session.settings s = Some o)
  ∧ (∀ k, is_Some (ofs !! k) →
          Session_get k s st' = FrontendSession_get k fs st).
Proof.
  intros Hls Ho Hofs st'.
  pose proof (importAll_objects st _ l s o Hls Ho _ ofs cb Hofs) as Hobj.
  fold (FrontendSession_pushAll cb fs st) in Hobj. fold st' in Hobj.
  assert (∀ k, Session_get k s st'
               = match ofs !! k with
                 | Some v => v
                 | None => Session_get k s st
                 end) as Hget.
  { intros k. unfold Session_get, prop.
    rewrite Hobj, Ho, lookup_insert_eq. simpl.
    destruct (ofs !! k) as [v|] eqn:Hk.
    - by rewrite (lookup_union_Some_l _ _ _ _ Hk).
    - by rewrite lookup_union_r. }
  split; [done|]. split.
  - intros ->. rewrite Hobj, lookup_insert_eq. f_equal. apply (idemp (∪)).
  - intros k [v Hk]. rewrite Hget, Hk.
    unfold FrontendSession_get, prop. rewrite Hofs. simpl. by rewrite Hk.
Qed.

Lemma pushAll_merges_witness :
  objects (FrontendSession_pushAll VUndefined projected_fs projected_state)
    !! 0 = Some {[ "score" := VNum 10 ]}.
Proof.
  destruct (pushAll_merges projected_state projected_fs 0 projected_session
              {[ "score" := VNum 10 ]} {[ "score" := VNum 10 ]} VUndefined)
    as (_ & H & _); [vm_compute; reflexivity..|].
  by apply H.
Defined.

(** ** clone *)

(** [clone(src, dest, includes)] gives [dest] every field named in
    [includes], with the value [src] has for it ([undefined] if it has
    none), and leaves the other fields of [dest] as they are. *)
Theorem clone_lookup (src dest : gmap string Value) (includes : list string)
    (f : string) :
  clone src dest includes !! f
  = if decide (f ∈ includes) then Some (prop src f) else dest !! f.
Proof.
  unfold clone. revert dest.
  induction includes as [|x includes IH]; intros dest; cbn [foldl].
  { destruct (decide (f ∈ [])) as [H|]; [by apply elem_of_nil in H|done]. }
  rewrite IH.
  destruct (decide (f ∈ includes)) as [Hin|Hnin];
    destruct (decide (f ∈ x :: includes)) as [Hin'|Hnin']; try done.
  - exfalso. apply Hnin'. by apply list_elem_of_further.
  - apply elem_of_cons in Hin' as [->|?]; [|done].
    by rewrite lookup_insert_eq.
  - rewrite lookup_insert_ne; [done|]. intros ->.
    apply Hnin', list_elem_of_here.
Qed.

(** ** What closed leaves alone *)

Lemma Session_closed_frame this reason st :
  (∀ l, l ≠ this → heap (Session_closed this reason st) !! l = heap st !! l)
  ∧ (∀ x o, objects st !! x = Some o →
            objects (Session_closed this reason st) !! x = Some o)
  ∧ (∀ sid l, sessions (Session_closed this reason st) !! sid = Some l →
              sessions st !! sid = Some l).
Proof.
  destruct (heap st !! this) as [session|] eqn:Hs.
  2:{ unfold Session_closed. by rewrite Hs. }
  destruct (decide (Session.__state__ session = ST_CLOSED)) as [Hc|Hopen].
  { by rewrite Session_closed_closed by by exists session. }
  destruct (Session_closed_open this session reason st Hs Hopen)
    as (Hh & Hse & _).
  split; [intros l Hne; rewrite Hh; by apply lookup_insert_ne|]. split.
  - intros x o Hx. unfold Session_closed. rewrite Hs.
    rewrite bool_decide_eq_false_2 by done. simpl.
    set (st1 := set_heap _ st).
    destruct (SessionService_remove_frame (Session.id session) st1)
      as (_ & Ho & _). simpl in Ho. rewrite Ho.
    rewrite lookup_insert_ne; [done|]. intros <-.
    assert (objects st !! fresh (dom (objects st)) = None) as Hf
      by apply not_elem_of_dom, is_fresh.
    congruence.
  - intros sid l Hl. rewrite Hse in Hl.
    apply SessionService_remove_subset in Hl. exact Hl.
Qed.

Lemma close_each_frame sids reason st :
  (∀ l, (∀ sid, sid ∈ sids → sessions st !! sid ≠ Some l) →
        heap (state_of (close_each sids reason st)) !! l = heap st !! l)
  ∧ (∀ x o, objects st !! x = Some o →
            objects (state_of (close_each sids reason st)) !! x = Some o).
Proof.
  revert st. induction sids as [|sid sids IH]; intros st; [done|]. simpl.
  destruct (sessions st !! sid) as [this|] eqn:Hthis; [|done].
  destruct (Session_closed_frame this reason st) as (Hh & Ho & Hsub).
  destruct (IH (Session_closed this reason st)) as (IHh & IHo).
  split.
  - intros l Hl. rewrite IHh.
    + apply Hh. intros ->. apply (Hl sid); [apply list_elem_of_here|done].
    + intros sid' Hin Hreg. apply (Hl sid'); [by apply list_elem_of_further|].
      by apply Hsub.
  - intros x o Hx. by apply IHo, Ho.
Qed.

(** ** How the callbacks are delivered *)

(** In every state: [unbind] schedules its callback, last, and before
    that calls no callback and schedules none; [import] and [importAll]
    run theirs in the call and schedule nothing; [kickBySessionId] and a
    [kick] that returns schedule theirs, last, after the closures, and
    before that call no callback and schedule none; a [kick] that throws
    has neither called nor scheduled any callback. *)
Theorem callback_delivery (st : State) :
  (∀ sid uid cb, ∃ evs err,
     log (SessionService_unbind sid uid cb st)
     = log st ++ evs ++ [NextTick (TCall cb err)]
     ∧ quiet evs)
  ∧ (∀ sid key value f, ∃ err,
       log (SessionService_import sid key value (VFun f) st)
       = log st ++ [Invoke f err])
  ∧ (∀ sid m f, ∃ err,
       log (SessionService_importAll sid m (VFun f) st)
       = log st ++ [Invoke f err])
  ∧ (∀ sid reason cb, ∃ evs cb',
       log (SessionService_kickBySessionId sid reason cb st)
       = log st ++ evs ++ [NextTick (TInvokeCallback cb' None)]
       ∧ (cb' = if is_function reason then reason else cb)
       ∧ quiet evs)
  ∧ (∀ uid reason cb, ∃ evs,
       quiet evs
       ∧ match SessionService_kick uid reason cb st with
         | Returned st' =>
             log st' = log st ++ evs ++
                       [NextTick (TInvokeCallback
                                    (if is_function reason then reason else cb)
                                    None)]
         | Threw st' => log st' = log st ++ evs
         end).
Proof.
  split.
  { intros sid uid cb. unfold SessionService_unbind.
    destruct (lookup_session st sid) as [[l s]|] eqn:Hl.
    2:{ eexists [], _. split; [done|apply quiet_nil]. }
    destruct (negb _ || negb _).
    { eexists [], _. split; [done|apply quiet_nil]. }
    exists [SessionEmit l (NUnbind uid)], None. simpl. split.
    - rewrite <- app_assoc. simpl. f_equal.
      destruct (uidMap st !! uid); [|done]. by destruct (bool_decide _).
    - by intros e ->%list_elem_of_singleton. }
  split.
  { intros sid key value f. unfold SessionService_import.
    destruct (lookup_session st sid) as [[l s]|]; eexists; simpl;
      [by destruct key|done]. }
  split.
  { intros sid m f. unfold SessionService_importAll.
    destruct (lookup_session st sid) as [[l s]|]; eexists; simpl; done. }
  split.
  { intros sid reason cb. unfold SessionService_kickBySessionId,
      SessionService_get.
    assert (∀ r c, ∃ evs,
              log match sessions st !! sid with
                  | Some l => nextTick (TInvokeCallback c None)
                                (Session_closed l r st)
                  | None => nextTick (TInvokeCallback c None) st
                  end = log st ++ evs ++ [NextTick (TInvokeCallback c None)]
              ∧ quiet evs) as H.
    { intros r c. destruct (sessions st !! sid) as [l|]; simpl.
      - destruct (Session_closed_quiet l r st) as (evs & -> & Hn).
        exists evs. by rewrite <- app_assoc.
      - exists []. split; [done|apply quiet_nil]. }
    destruct (is_function reason).
    - destruct (H (VStr "kick") reason) as (evs & ? & ?). by exists evs, reason.
    - destruct (H reason cb) as (evs & ? & ?). by exists evs, cb. }
  intros uid reason cb. unfold SessionService_kick, SessionService_getByUid.
  assert (∀ r c, ∃ evs, quiet evs
            ∧ match
                match uidMap st !! uid with
                | Some bucket =>
                    match close_each (ids_of st bucket) r st with
                    | Returned st' =>
                        Returned (nextTick (TInvokeCallback c None) st')
                    | Threw st' => Threw st'
                    end
                | None => Returned (nextTick (TInvokeCallback c None) st)
                end
              with
              | Returned st' =>
                  log st' = log st ++ evs ++ [NextTick (TInvokeCallback c None)]
              | Threw st' => log st' = log st ++ evs
              end) as H.
  { intros r c. destruct (uidMap st !! uid) as [b|].
    - destruct (close_each_quiet (ids_of st b) r st) as (evs & Hl & Hn).
      exists evs. split; [done|].
      destruct (close_each _ _ _); simpl in *; rewrite Hl;
        [by rewrite <- app_assoc|done].
    - exists []. split; [apply quiet_nil|done]. }
  destruct (is_function reason); apply H.
Qed.

(** ** closed, the notification *)

(** The first [closed] of a session registered in an indexed registry. *)
Lemma closed_keeps_uid_core st this s reason :
  heap st !! this = Some s → Session.__state__ s ≠ ST_CLOSED → indexed st →
  let st' := Session_closed this reason st in
  heap st' = <[this := Session.set_state ST_CLOSED s]> (heap st)
  ∧ (∀ u b, uidMap st' !! u = Some b → this ∉ b)
  ∧ (∃ fs, log st' = log st ++
             [SessionEmit this (NClosed fs reason);
              SocketEmit (Session.__socket__ s) "closing" reason;
              NextTick (TDisconnect (Session.__socket__ s))])
  ∧ (sessions st !! Session.id s = Some this →
     sessions st' = delete (Session.id s) (sessions st)).
Proof.
  intros Hs Hopen Hi st'.
  destruct (Session_closed_open this s reason st Hs Hopen)
    as (Hh & Hse & Hu & _ & Hlog).
  fold st' in Hh, Hse, Hu, Hlog.
  set (closed := Session.set_state ST_CLOSED s) in *.
  set (st1 := set_heap (insert this closed) st) in *.
  assert (lookup_session st1 (Session.id s) = Some (this, closed) →
          sessions st' = delete (Session.id s) (sessions st)) as Hdel.
  { intros Hls. rewrite Hse.
    by rewrite (SessionService_remove_sessions _ st1 this closed Hls). }
  split; [done|]. split; [|split; [by eexists|]].
  - intros u b Hb Hin.
    assert (indexed st1) as Hi1 by by eapply indexed_update.
    pose proof (indexed_remove st1 (Session.id s) Hi1) as Hi2.
    rewrite Hu in Hb.
    destruct (indexed_bucket _ Hi2 u b Hb) as (_ & _ & Hel).
    destruct (Hel this Hin) as (s' & Hs' & _ & Hreg).
    destruct (SessionService_remove_frame (Session.id s) st1) as (Hh2 & _).
    rewrite Hh2 in Hs'. simpl in Hs'. rewrite lookup_insert_eq in Hs'.
    injection Hs' as <-. simpl in Hreg.
    pose proof (SessionService_remove_subset _ _ _ _ Hreg) as Hreg1.
    rewrite <- Hse, Hdel in Hreg.
    + by rewrite lookup_delete_eq in Hreg.
    + apply lookup_session_Some. split; [done|]. apply lookup_insert_eq.
  - intros Hreg. apply Hdel. apply lookup_session_Some.
    split; [done|]. apply lookup_insert_eq.
Qed.

(** The first [closed(reason)] of an open session leaves the session its
    uid: the session is CLOSED, bound in name only.  The FrontendSession
    that goes with the [closed] notification carries the session's id,
    frontendId and uid and a copy of its settings; no other session and no
    object of the store is changed.  In an indexed registry the session is
    in no bucket any more. *)
Theorem closed_keeps_uid (st : State) (this : loc) (s : Session)
    (reason : Value) :
  heap st !! this = Some s → Session.__state__ s ≠ ST_CLOSED →
  let st' := Session_closed this reason st in
  heap st' !! this = Some (Session.set_state ST_CLOSED s)
  ∧ (Session.uid <$> heap st' !! this) = Some (Session.uid s)
  ∧ (∃ fs, SessionEmit this (NClosed fs reason) ∈ log st'
           ∧ FrontendSession.id fs = Session.id s
           ∧ FrontendSession.frontendId fs = Session.frontendId s
           ∧ FrontendSession.uid fs = Session.uid s
           ∧ FrontendSession.__session__ fs = this
           ∧ objects st !! FrontendSession.settings fs = None
           ∧ objects st' !! FrontendSession.settings fs
             = Some (default ∅ (objects st !! Session.settings s)))
  ∧ (∀ l, l ≠ this → heap st' !! l = heap st !! l)
  ∧ (∀ x o, objects st !! x = Some o → objects st' !! x = Some o)
  ∧ (indexed st → ∀ u b, uidMap st' !! u = Some b → this ∉ b).
Proof.
  intros Hs Hopen st'.
  destruct (Session_closed_open this s reason st Hs Hopen)
    as (Hh & Hse & Hu & _ & Hlog).
  destruct (Session_closed_frame this reason st) as (Hfh & Hfo & _).
  fold st' in Hh, Hse, Hu, Hlog, Hfh, Hfo.
  set (closed := Session.set_state ST_CLOSED s) in *.
  set (st1 := set_heap (insert this closed) st) in *.
  destruct (SessionService_remove_frame (Session.id s) st1) as (_ & Ho2 & _).
  split; [rewrite Hh; apply lookup_insert_eq|].
  split; [by rewrite Hh, lookup_insert_eq|].
  split.
  { eexists. split; [rewrite Hlog; apply elem_of_app; right;
                     apply list_elem_of_here|].
    simpl. do 4 (split; [done|]). rewrite Ho2. simpl.
    split; [apply not_elem_of_dom, is_fresh|].
    unfold st', Session_closed. rewrite Hs.
    rewrite bool_decide_eq_false_2 by done. simpl.
    fold closed. fold st1. rewrite Ho2. simpl. apply lookup_insert_eq. }
  do 2 (split; [done|]).
  intros Hi u b Hb Hin.
  assert (indexed st1) as Hi1 by by eapply indexed_update.
  pose proof (indexed_remove st1 (Session.id s) Hi1) as Hi2.
  rewrite Hu in Hb.
  destruct (indexed_bucket _ Hi2 u b Hb) as (_ & _ & Hel).
  destruct (Hel this Hin) as (s' & Hs' & _ & Hreg).
  destruct (SessionService_remove_frame (Session.id s) st1) as (Hh2 & _).
  rewrite Hh2 in Hs'. simpl in Hs'. rewrite lookup_insert_eq in Hs'.
  injection Hs' as <-. simpl in Hreg.
  pose proof (SessionService_remove_subset _ _ _ _ Hreg) as Hreg1.
  rewrite (SessionService_remove_sessions _ st1 this closed) in Hreg.
  - simpl in Hreg. by rewrite lookup_delete_eq in Hreg.
  - apply lookup_session_Some. split; [done|]. apply lookup_insert_eq.
Qed.

Lemma closed_keeps_uid_witness :
  (Session.uid <$> heap (Session_closed 0 (VStr "bye") bound_state) !! 0)
  = Some (Some 42%Z)
  ∧ uidMap (Session_closed 0 (VStr "bye") bound_state) = ∅.
Proof.
  destruct (closed_keeps_uid bound_state 0
              (Session.mk 1 "connector-1" (Some 42%Z) 0 9 ST_INITED)
              (VStr "bye") eq_refl) as (_ & H & _); [discriminate|].
  split; [exact H|]. vm_compute. reflexivity.
Defined.

(** ** kickBySessionId and what kick leaves alone *)

(** In an indexed registry without CLOSED sessions, [kickBySessionId] of a
    registered sid closes that session and no other: it is CLOSED, out of
    the table and of every bucket, the count goes down by one, every other
    session and entry of the table stays, and the log gains the [closed]
    notification, the [closing] signal, the deferred disconnect and, last,
    the deferred callback. *)
Theorem kickBySessionId_closes_one (st : State) (sid : Z) (reason cb : Value)
    (l : loc) (s : Session) :
  indexed st → all_open st →
  sessions st !! sid = Some l → heap st !! l = Some s →
  is_function reason = false →
  let st' := SessionService_kickBySessionId sid reason cb st in
  closed_at st' l
  ∧ SessionService_get sid st' = None
  ∧ S (SessionService_getSessionsCount st') = SessionService_getSessionsCount st
  ∧ (∀ u b, uidMap st' !! u = Some b → l ∉ b)
  ∧ (∀ sid', sid' ≠ sid →
       SessionService_get sid' st' = SessionService_get sid' st)
  ∧ (∀ l', l' ≠ l → heap st' !! l' = heap st !! l')
  ∧ (∃ fs, log st' = log st ++
             [SessionEmit l (NClosed fs reason);
              SocketEmit (Session.__socket__ s) "closing" reason;
              NextTick (TDisconnect (Session.__socket__ s));
              NextTick (TInvokeCallback cb None)])
  ∧ indexed st' ∧ all_open st'.
Proof.
  intros Hi Ho Hl Hs Hr st'.
  pose proof (Ho sid l s Hl Hs) as Hopen. simpl in Hopen.
  pose proof (registered_id st Hi sid l s Hl Hs) as Hid.
  set (stc := Session_closed l reason st).
  assert (sessions st' = sessions stc ∧ uidMap st' = uidMap stc
          ∧ heap st' = heap stc
          ∧ log st' = log stc ++ [NextTick (TInvokeCallback cb None)])
    as (Hse' & Hu' & Hh' & Hlog').
  { unfold st', SessionService_kickBySessionId, SessionService_get.
    by rewrite Hr, Hl. }
  destruct (closed_keeps_uid_core st l s reason Hs Hopen Hi)
    as (Hh & Hout & Hlog & Hsess).
  fold stc in Hh, Hout, Hlog, Hsess.
  assert (indexed stc) as Hic by by apply indexed_closed.
  assert (all_open stc) as Hoc
    by by apply (registered_all_closed (λ s, Session.__state__ s ≠ ST_CLOSED)).
  assert (sessions stc = delete sid (sessions st)) as Hdel.
  { rewrite <- Hid. apply Hsess. by rewrite Hid. }
  unfold SessionService_get, SessionService_getSessionsCount.
  rewrite Hse', Hu', Hh', Hlog', Hdel.
  split; [apply (closed_at_ext stc); [done|by eapply Session_closed_closes]|].
  split; [apply lookup_delete_eq|]. split.
  { rewrite map_size_delete, Hl.
    assert (size (sessions st) ≠ 0); [|simpl; lia].
    intros E. apply map_size_empty_inv in E. rewrite E in Hl.
    by rewrite lookup_empty in Hl. }
  split; [done|].
  split; [intros sid' Hne; by apply lookup_delete_ne|].
  split; [intros l' Hne; rewrite Hh; by apply lookup_insert_ne|].
  split.
  { destruct Hlog as (fs & ->). exists fs. by rewrite <- app_assoc. }
  split.
  - by apply (indexed_ext stc).
  - by apply (registered_all_ext _ stc).
Qed.

Lemma kickBySessionId_closes_one_witness :
  let st' := SessionService_kickBySessionId 1 (VStr "admin") (VFun 5)
               shared_uid_state in
  SessionService_get 1 st' = None ∧ SessionService_get 2 st' = Some 1.
Proof.
  destruct shared_uid_state_maintained as (Hi & Ho & _).
  destruct (kickBySessionId_closes_one shared_uid_state 1 (VStr "admin")
              (VFun 5) 0
              (Session.mk 1 "connector-1" (Some 42%Z) 0 9 ST_INITED)
              Hi Ho eq_refl eq_refl eq_refl) as (_ & H1 & _ & _ & H2 & _).
  split; [exact H1|]. simpl. rewrite (H2 2%Z); [reflexivity|discriminate].
Defined.

(** In an indexed registry without CLOSED sessions, [kick(uid, ...)]
    touches the sessions of the bucket of [uid] and nothing else: the
    sessions outside the bucket are as they were and stay in the table, the
    buckets of the other uids stay, and no object of the store (the
    settings of any session) is changed. *)
Theorem kick_leaves_others (st : State) (uid : Z) (reason cb : Value) :
  indexed st → all_open st →
  let bucket := default [] (SessionService_getByUid uid st) in
  let st' := state_of (SessionService_kick uid reason cb st) in
  (∀ l, l ∉ bucket → heap st' !! l = heap st !! l)
  ∧ (∀ sid l, SessionService_get sid st = Some l → l ∉ bucket →
              SessionService_get sid st' = Some l)
  ∧ (∀ u, u ≠ uid → SessionService_getByUid u st' = SessionService_getByUid u st)
  ∧ (∀ x o, objects st !! x = Some o → objects st' !! x = Some o).
Proof.
  intros Hi Ho. unfold SessionService_kick, SessionService_getByUid,
    SessionService_get.
  assert (∀ r c,
    let st' := state_of
      match uidMap st !! uid with
      | Some bucket =>
          match close_each (ids_of st bucket) r st with
          | Returned st' => Returned (nextTick (TInvokeCallback c None) st')
          | Threw st' => Threw st'
          end
      | None => Returned (nextTick (TInvokeCallback c None) st)
      end in
    (∀ l, l ∉ default [] (uidMap st !! uid) → heap st' !! l = heap st !! l)
    ∧ (∀ sid l, sessions st !! sid = Some l →
                l ∉ default [] (uidMap st !! uid) →
                sessions st' !! sid = Some l)
    ∧ (∀ u, u ≠ uid → uidMap st' !! u = uidMap st !! u)
    ∧ (∀ x o, objects st !! x = Some o → objects st' !! x = Some o)) as H.
  { intros r c. destruct (uidMap st !! uid) as [b|] eqn:Hb; simpl; [|done].
    destruct (close_each_bucket r uid b st Hi Ho Hb)
      as (st1 & evs & Hrun & _ & _ & Hu1 & Hse1 & _).
    destruct (close_each_frame (ids_of st b) r st) as (Hfh & Hfo).
    rewrite Hrun in *. simpl in *.
    assert (∀ sid l, sessions st !! sid = Some l → l ∉ b →
                     sid ∉ ids_of st b) as Hnot.
    { intros sid l Hl Hnin Hin. apply elem_of_ids_of_inv in Hin.
      apply existsb_exists in Hin as (x & Hx & Hid).
      apply list_elem_of_In in Hx.
      rewrite (has_id_registered st uid b sid l x Hi Hl Hb Hx) in Hid.
      apply bool_decide_eq_true in Hid. by subst. }
    split; [|split; [|split; [|done]]].
    - intros l Hl. apply Hfh. intros sid Hsid Hreg.
      by apply (Hnot sid l).
    - intros sid l Hl Hnin. rewrite Hse1.
      rewrite decide_False; [done|]. by apply (Hnot sid l).
    - intros u Hne. rewrite Hu1. by apply lookup_delete_ne. }
  destruct (is_function reason); apply H.
Qed.

Lemma kick_leaves_others_witness :
  SessionService_get 3
    (state_of (SessionService_kick 42 (VStr "admin") (VFun 5) three_state))
  = Some 2.
Proof.
  assert (maintained three_state) as (Hi & Ho & _).
  { apply maintained_exec; [apply maintained_exec|];
      [apply shared_uid_state_maintained|reflexivity|discriminate]. }
  destruct (kick_leaves_others three_state 42 (VStr "admin") (VFun 5) Hi Ho)
    as (_ & H & _).
  apply H; [reflexivity|]. vm_compute. set_solver.
Defined.

(** ** Messages and addresses *)

(** In every reachable state: [sendMessage] to a registered sid sends the
    message once, to the socket of that session, and returns true;
    [sendMessageByUid] sends it once to the socket of each session of the
    bucket, in the order of the bucket, and returns nothing ([undefined]),
    never [true]; without a bucket it sends nothing and returns false. *)
Theorem send_reaches_the_bucket (ok : State → Op → Prop) (st : State)
    (msg : Value) :
  reachable ok st →
  (∀ sid l, SessionService_get sid st = Some l →
     ∃ s, heap st !! l = Some s
          ∧ SessionService_sendMessage sid msg st
            = (VBool true, [Send (Session.__socket__ s) msg]))
  ∧ (∀ uid, SessionService_getByUid uid st = None →
            SessionService_sendMessageByUid uid msg st = (VBool false, []))
  ∧ (∀ uid b, SessionService_getByUid uid st = Some b →
       ∃ calls,
         SessionService_sendMessageByUid uid msg st = (VUndefined, calls)
         ∧ length calls = length b
         ∧ ∀ i l, b !! i = Some l →
                  ∃ s, heap st !! l = Some s
                       ∧ calls !! i = Some (Send (Session.__socket__ s) msg)).
Proof.
  intros Hr. destruct (reachable_sound ok st Hr) as (Hk & _ & Hok).
  unfold SessionService_get, SessionService_getByUid,
    SessionService_sendMessage, SessionService_sendMessageByUid.
  split; [|split].
  - intros sid l Hl. destruct (Hk sid l Hl) as (s & Hs & _). exists s.
    split; [done|]. unfold lookup_session. rewrite Hl. simpl. by rewrite Hs.
  - by intros uid ->.
  - intros uid b Hb. rewrite Hb. eexists. split; [done|].
    destruct (Hok uid b Hb) as (_ & Hin & _). clear Hb.
    induction b as [|x b IH]; [done|].
    destruct (Hin x) as [s Hs]; [apply list_elem_of_here|].
    destruct IH as [IHlen IHl].
    { intros l Hl. by apply Hin, list_elem_of_further. }
    simpl in *. rewrite Hs. simpl. split; [by rewrite IHlen|].
    intros [|i] l Hl; simpl in *.
    + injection Hl as <-. by exists s.
    + by apply IHl.
Qed.

Lemma send_reaches_the_bucket_witness :
  ∃ calls,
    SessionService_sendMessageByUid 42 (VStr "hello") shared_uid_state
    = (VUndefined, calls)
    ∧ length calls = 2.
Proof.
  assert (reachable disciplined shared_uid_state) as Hr.
  { unfold shared_uid_state.
    repeat (apply reachable_exec; [|first [reflexivity|discriminate]]).
    apply reachable_new. }
  destruct (send_reaches_the_bucket disciplined shared_uid_state
              (VStr "hello") Hr) as (_ & _ & H).
  destruct (H 42%Z [0; 1] eq_refl) as (calls & Hc & Hlen & _).
  exists calls. split; [exact Hc|exact Hlen].
Defined.

(** In every reachable state: [getClientAddressBySessionId(sid)] right
    after [create(sid, frontendId, socket)] is the remote address of that
    socket; after [remove(sid)], and after [closed] of the session
    registered under [sid], it is null. *)
Theorem client_address_follows_the_table (ok : State → Op → Prop)
    (remoteAddress : Socket → Value) (st : State) (sid : Z) :
  reachable ok st →
  (∀ frontendId socket,
     SessionService_getClientAddressBySessionId remoteAddress sid
       (SessionService_create sid frontendId socket st).2
     = remoteAddress socket)
  ∧ SessionService_getClientAddressBySessionId remoteAddress sid
      (SessionService_remove sid st) = VNull
  ∧ (∀ l reason, SessionService_get sid st = Some l →
       SessionService_getClientAddressBySessionId remoteAddress sid
         (Session_closed l reason st) = VNull).
Proof.
  intros Hr. destruct (reachable_sound ok st Hr) as (Hk & Ho & _).
  unfold SessionService_getClientAddressBySessionId, SessionService_get.
  split; [|split].
  - intros frontendId socket. unfold lookup_session, SessionService_create.
    simpl. rewrite lookup_insert_eq. simpl. by rewrite lookup_insert_eq.
  - destruct (lookup_session st sid) as [[l s]|] eqn:Hls.
    + pose proof Hls as [Hl Hs]%lookup_session_Some.
      destruct (Hk sid l Hl) as (s' & Hs' & Hid).
      assert (s' = s) as -> by congruence.
      unfold lookup_session at 1.
      rewrite (SessionService_remove_sessions sid st l s Hls), Hid.
      by rewrite lookup_delete_eq.
    + unfold SessionService_remove. by rewrite Hls, Hls.
  - intros l reason Hl. destruct (Hk sid l Hl) as (s & Hs & Hid).
    pose proof (Ho sid l s Hl Hs) as Hopen. simpl in Hopen.
    destruct (Session_closed_open l s reason st Hs Hopen) as (_ & Hse & _).
    unfold lookup_session at 1. rewrite Hse.
    rewrite (SessionService_remove_sessions _ _ l
               (Session.set_state ST_CLOSED s)).
    + simpl. by rewrite Hid, lookup_delete_eq.
    + apply lookup_session_Some. simpl. rewrite Hid.
      split; [done|]. apply lookup_insert_eq.
Qed.

Lemma client_address_follows_the_table_witness :
  SessionService_getClientAddressBySessionId (λ sock, VNum (Z.of_nat sock)) 1
    (SessionService_remove 1 bound_state) = VNull.
Proof.
  assert (reachable disciplined bound_state) as Hr.
  { unfold bound_state.
    repeat (apply reachable_exec; [|first [reflexivity|discriminate]]).
    apply reachable_new. }
  destruct (client_address_follows_the_table disciplined
              (λ sock, VNum (Z.of_nat sock)) bound_state 1 Hr) as (_ & H & _).
  exact H.
Defined.

(** ** Iteration *)

Lemma NoDup_flat_map {A B} (f : A → list B) (ks : list A) :
  NoDup ks → (∀ k, NoDup (f k)) →
  (∀ k k' x, x ∈ f k → x ∈ f k' → k = k') →
  NoDup (flat_map f ks).
Proof.
  intros Hnd Hf Hinj. induction Hnd as [|k ks Hk Hnd IH]; simpl; [constructor|].
  apply NoDup_app. split; [done|]. split; [|done].
  intros x Hx Hin. apply list_elem_of_In, in_flat_map in Hin as (k' & Hk' & Hx').
  apply list_elem_of_In in Hk', Hx'.
  by rewrite (Hinj k k' x Hx Hx') in Hk.
Qed.

Lemma elem_of_flat_map {A B} (f : A → list B) (ks : list A) x :
  x ∈ flat_map f ks ↔ ∃ k, k ∈ ks ∧ x ∈ f k.
Proof.
  rewrite list_elem_of_In, in_flat_map. split.
  - intros (k & ? & ?). exists k. by rewrite !list_elem_of_In.
  - intros (k & ? & ?). exists k. by rewrite <- !list_elem_of_In.
Qed.

Lemma enumerates_length {V} (ks : list Z) (m : gmap Z V) :
  enumerates ks m → length ks = size m.
Proof.
  intros [Hnd Hin]. rewrite <- size_dom. unfold size, set_size. simpl.
  apply Permutation_length, NoDup_Permutation; [done|apply NoDup_elements|].
  intros k. by rewrite Hin, elem_of_elements, elem_of_dom.
Qed.

Lemma forEachSession_length (ks : list Z) (st : State) :
  (∀ k, k ∈ ks → is_Some (sessions st !! k)) →
  length (SessionService_forEachSession ks st) = length ks.
Proof.
  unfold SessionService_forEachSession.
  induction ks as [|k ks IH]; intros Hin; [done|]. simpl.
  destruct (Hin k) as [l ->]; [apply list_elem_of_here|]. simpl.
  f_equal. apply IH. intros k' Hk'. apply Hin. by apply list_elem_of_further.
Qed.

(** In an indexed registry, whatever the order in which [for ... in] goes
    through the keys: [forEachSession] calls [cb] once with each session
    of the table and with nothing else, [getSessionsCount()] times in all;
    [forEachBindedSession] calls it once with each registered session that
    has a uid, and with nothing else. *)
Theorem forEach_visits_each_once (st : State) (ks ku : list Z) :
  indexed st → enumerates ks (sessions st) → enumerates ku (uidMap st) →
  NoDup (SessionService_forEachSession ks st)
  ∧ (∀ l, l ∈ SessionService_forEachSession ks st
          ↔ ∃ sid, SessionService_get sid st = Some l)
  ∧ length (SessionService_forEachSession ks st)
    = SessionService_getSessionsCount st
  ∧ NoDup (SessionService_forEachBindedSession ku st)
  ∧ (∀ l, l ∈ SessionService_forEachBindedSession ku st
          ↔ ∃ sid s u, SessionService_get sid st = Some l
                       ∧ heap st !! l = Some s ∧ Session.uid s = Some u).
Proof.
  intros Hi Hen [Hku Hkuin]. pose proof Hen as [Hks Hkin].
  split; [|split; [|split; [|split]]].
  3:{ rewrite forEachSession_length; [|intros k; apply Hkin].
      by apply enumerates_length. }
  all: unfold SessionService_forEachSession,
         SessionService_forEachBindedSession, SessionService_get.
  - apply NoDup_flat_map; [done| |].
    + intros k. destruct (sessions st !! k); [apply NoDup_singleton|constructor].
    + intros k k' x Hx Hx'.
      destruct (sessions st !! k) as [l|] eqn:Hl;
        [|by apply elem_of_nil in Hx].
      destruct (sessions st !! k') as [l'|] eqn:Hl';
        [|by apply elem_of_nil in Hx'].
      apply list_elem_of_singleton in Hx, Hx'. subst l l'.
      destruct (indexed_session st Hi k x Hl) as (s & Hs & Hid & _).
      destruct (indexed_session st Hi k' x Hl') as (s' & Hs' & Hid' & _).
      congruence.
  - intros l. rewrite elem_of_flat_map. split.
    + intros (k & _ & Hx). destruct (sessions st !! k) as [l'|] eqn:Hl';
        [|by apply elem_of_nil in Hx].
      apply list_elem_of_singleton in Hx as ->. by exists k.
    + intros (sid & Hl). exists sid. split; [by apply Hkin|].
      rewrite Hl. apply list_elem_of_here.
  - apply NoDup_flat_map; [done| |].
    + intros k. destruct (uidMap st !! k) as [b|] eqn:Hb; simpl; [|constructor].
      by destruct (indexed_bucket st Hi k b Hb).
    + intros k k' x Hx Hx'.
      destruct (uidMap st !! k) as [b|] eqn:Hb; simpl in Hx;
        [|by apply elem_of_nil in Hx].
      destruct (uidMap st !! k') as [b'|] eqn:Hb'; simpl in Hx';
        [|by apply elem_of_nil in Hx'].
      destruct (indexed_bucket st Hi k b Hb) as (_ & _ & Hel).
      destruct (indexed_bucket st Hi k' b' Hb') as (_ & _ & Hel').
      destruct (Hel x Hx) as (s & ? & ? & _).
      destruct (Hel' x Hx') as (s' & ? & ? & _). congruence.
  - intros l. rewrite elem_of_flat_map. split.
    + intros (k & _ & Hx).
      destruct (uidMap st !! k) as [b|] eqn:Hb; simpl in Hx;
        [|by apply elem_of_nil in Hx].
      destruct (indexed_bucket st Hi k b Hb) as (_ & _ & Hel).
      destruct (Hel l Hx) as (s & ? & ? & ?). by exists (Session.id s), s, k.
    + intros (sid & s & u & Hl & Hs & Hu).
      destruct (registered_bucket st Hi sid l s Hl Hs u Hu) as (b & Hb & Hin).
      exists u. split; [apply Hkuin; by rewrite Hb|]. by rewrite Hb.
Qed.

Lemma forEach_visits_each_once_witness :
  SessionService_forEachSession [2%Z; 1%Z] shared_uid_state = [1; 0]
  ∧ NoDup (SessionService_forEachBindedSession [42%Z] shared_uid_state).
Proof.
  split; [reflexivity|].
  destruct shared_uid_state_maintained as (Hi & _).
  destruct (forEach_visits_each_once shared_uid_state [2%Z; 1%Z] [42%Z] Hi)
    as (_ & _ & _ & H & _); [| |exact H].
  - split; [repeat constructor; set_solver|].
    intros k. replace (sessions shared_uid_state)
      with ({[ 1%Z := 0; 2%Z := 1 ]} : gmap Z nat) by (vm_compute; reflexivity).
    rewrite elem_of_cons, list_elem_of_singleton.
    rewrite lookup_insert_is_Some, lookup_singleton_is_Some. naive_solver.
  - split; [apply NoDup_singleton|].
    intros k. replace (uidMap shared_uid_state)
      with ({[ 42%Z := [0; 1] ]} : gmap Z (list nat))
      by (vm_compute; reflexivity).
    rewrite list_elem_of_singleton, lookup_singleton_is_Some. naive_solver.
Defined.

(** ** The projection's uid *)


Lemma answer_to_nextTick w err st :
  answer_to w (nextTick (TCall w err) st) = Some err.
Proof.
  unfold answer_to. simpl. rewrite last_snoc. by rewrite decide_True.
Qed.



(** [FrontendSession.unbind] on the projection of a registered session,
    with a uid other than 0: the service never calls the function the
    projection handed over within the call; it schedules it, as the last
    thing it does, and before that calls no callback and schedules none.
    If the answer scheduled is no error, the session's uid was the given
    one, and the session's uid and the projection's are both null
    afterwards; if it is an error, the error is NotBound and session,
    registry and projection are all as before.  The caller's callback,
    when it is a function, is then called with that answer. *)
Theorem FrontendSession_unbind_in_step (st : State) (fs : FrontendSession)
    (w : Callback) (uid : Z) (cb : Value) (l : loc) (s : Session) :
  lookup_session st (FrontendSession.id fs) = Some (l, s) →
  uid ≠ 0%Z →
  let st1 := FrontendSession_unbind w uid fs st in
  ∃ err evs,
    log st1 = log st ++ evs ++ [NextTick (TCall w err)]
    ∧ quiet evs
    ∧ evs = match err with
            | None => [SessionEmit l (NUnbind uid)]
            | Some _ => []
            end
    ∧ answer_to w st1 = Some err
    ∧ (let (fs', st2) := FrontendSession_unbind_callback cb err fs st1 in
       st2 = invokeCallback cb err st1
       ∧ match err with
         | None =>
             Session.uid s = Some uid
             ∧ FrontendSession.uid fs' = None
             ∧ (Session.uid <$> heap st1 !! l) = Some None
         | Some e =>
             e = NotBound (Session.uid s) ∧ Session.uid s ≠ Some uid
             ∧ fs' = fs ∧ unchanged st st1
         end).
Proof.
  intros Hls H0. simpl. unfold FrontendSession_unbind.
  pose proof Hls as [Hl Hs]%lookup_session_Some.
  destruct (decide (Session.uid s = Some uid)) as [Hu|Hu].
  - destruct (SessionService_unbind_bound st _ uid w l s Hls Hu H0)
      as (_ & _ & _ & Hh & Hlog & _).
    exists None, [SessionEmit l (NUnbind uid)].
    split; [exact Hlog|].
    split; [by intros e ->%list_elem_of_singleton|].
    split; [done|]. split.
    { unfold answer_to. rewrite Hlog.
      change [SessionEmit l (NUnbind uid); NextTick (TCall w None)]
        with ([SessionEmit l (NUnbind uid)] ++ [NextTick (TCall w None)]).
      rewrite app_assoc, last_snoc. by rewrite decide_True. }
    simpl. split; [done|]. split; [done|]. split; [done|].
    by rewrite Hh, lookup_alter_eq, Hs.
  - rewrite (SessionService_unbind_not_bound st _ uid w l s Hls Hu).
    exists (Some (NotBound (Session.uid s))), [].
    split; [done|]. split; [apply quiet_nil|]. split; [done|].
    rewrite answer_to_nextTick. by split.
Qed.

Lemma FrontendSession_unbind_in_step_witness :
  let fs := FrontendSession.mk 1 "connector-1" (Some 42%Z) 1 0 in
  let st1 := FrontendSession_unbind 3 42 fs bound_state in
  ∃ err evs,
    log st1 = log bound_state ++ evs ++ [NextTick (TCall 3 err)]
    ∧ quiet evs
    ∧ evs = match err with
            | None => [SessionEmit 0 (NUnbind 42)]
            | Some _ => []
            end
    ∧ answer_to 3 st1 = Some err
    ∧ (let (fs', st2) := FrontendSession_unbind_callback (VFun 5) err fs st1 in
       st2 = invokeCallback (VFun 5) err st1
       ∧ match err with
         | None =>
             Some 42%Z = Some 42%Z
             ∧ FrontendSession.uid fs' = None
             ∧ (Session.uid <$> heap st1 !! 0) = Some None
         | Some e =>
             e = NotBound (Some 42%Z) ∧ Some 42%Z ≠ Some 42%Z
             ∧ fs' = fs ∧ unchanged bound_state st1
         end).
Proof.
  apply (FrontendSession_unbind_in_step bound_state
           (FrontendSession.mk 1 "connector-1" (Some 42%Z) 1 0) 3 42 (VFun 5) 0
           (Session.mk 1 "connector-1" (Some 42%Z) 0 9 ST_INITED) eq_refl).
  discriminate.
Defined.
